(** * Aurora Weather (src/App.js): a shallow embedding and its properties

    The component keeps nine [useState] cells and two asynchronous actions,
    [searchCity] and [fetchWeather].  Values that come out of [res.json()] are
    modelled as JSON values; the hook cells become a record; an asynchronous
    action becomes a synchronous prefix that may suspend on a request, plus a
    continuation that is resumed with the outcome of that request. *)

From Stdlib Require Import QArith Qround Ascii DecimalString.
From stdpp Require Import base list strings.

Local Open Scope string_scope.
Set Warnings "-register-all".

(** ** JSON values as JavaScript sees them *)

(** What [JSON.parse] can return, plus [undefined].  A JSON number is a finite
    double, hence a rational.  The characters of a [string] stand for the code
    units of the JavaScript string. *)
Inductive JSValue : Type :=
  | JUndefined
  | JNull
  | JBool (b : bool)
  | JNum (q : Q)
  | JStr (s : string)
  | JArr (items : list JSValue)
  | JObj (fields : list (string * JSValue)).

(** Thrown values; the [catch] blocks of the program never inspect them. *)
Inductive Exn : Type :=
  | Error (msg : string)
  | TypeError
  | URIError
  | SyntaxError
  | NetworkError.

(** ToBoolean. *)
Definition truthy (v : JSValue) : bool :=
  match v with
  | JUndefined | JNull => false
  | JBool b => b
  | JNum q => negb (Qeq_bool q 0)
  | JStr s => negb (String.eqb s "")
  | JArr _ | JObj _ => true
  end.

(** [a || b] *)
Definition js_or (a b : JSValue) : JSValue := if truthy a then a else b.

(** [a ?? b] *)
Definition js_nullish (a b : JSValue) : JSValue :=
  match a with
  | JUndefined | JNull => b
  | _ => a
  end.

(** Own property of a parsed object. *)
Fixpoint assoc (k : string) (fields : list (string * JSValue)) : JSValue :=
  match fields with
  | [] => JUndefined
  | (k', v) :: rest => if String.eqb k k' then v else assoc k rest
  end.

(** [v.k] for a property name [k] that no built-in prototype defines (true of
    every name the program reads: hourly, time, temperature_2m, weathercode,
    precipitation_probability, results, id, name, country, latitude,
    longitude).  Reading a property of [null] or [undefined] throws. *)
Definition js_get (v : JSValue) (k : string) : Exn + JSValue :=
  match v with
  | JUndefined | JNull => inl TypeError
  | JObj fields => inr (assoc k fields)
  | _ => inr JUndefined
  end.

(** [v?.k] *)
Definition js_get_opt (v : JSValue) (k : string) : JSValue :=
  match js_get v k with
  | inl _ => JUndefined
  | inr x => x
  end.

Definition index_key (i : nat) : string :=
  NilEmpty.string_of_uint (Nat.to_uint i).

(** [v[i]] for a value [v] that is neither [null] nor [undefined]. *)
Definition js_index (v : JSValue) (i : nat) : JSValue :=
  match v with
  | JArr items => default JUndefined (items !! i)
  | JStr s =>
      match String.get i s with
      | Some c => JStr (String c EmptyString)
      | None => JUndefined
      end
  | JObj fields => assoc (index_key i) fields
  | _ => JUndefined
  end.

(** [[n1, n2, ...].includes(v)]: SameValueZero against number literals. *)
Definition includes (lits : list Z) (v : JSValue) : bool :=
  match v with
  | JNum q => existsb (fun n => Qeq_bool q (inject_Z n)) lits
  | _ => false
  end.

(** ** codeToEmoji (App.js 35-45) *)

Definition codeToEmoji (code : JSValue) : string :=
  if includes [0]%Z code then "☀️"
  else if includes [1; 2]%Z code then "🌤️"
  else if includes [3]%Z code then "☁️"
  else if includes [45; 48]%Z code then "🌫️"
  else if includes [51; 53; 55; 56; 57]%Z code then "🌦️"
  else if includes [61; 63; 65; 66; 67; 80; 81; 82]%Z code then "🌧️"
  else if includes [71; 73; 75; 77; 85; 86]%Z code then "❄️"
  else if includes [95; 96; 99]%Z code then "⛈️"
  else "🌀".

(** The nine icons, in the order of the source: clear, partly cloudy,
    overcast, fog, drizzle, rain, snow, thunderstorm, unknown. *)
Definition emojis : list string :=
  ["☀️"; "🌤️"; "☁️"; "🌫️"; "🌦️"; "🌧️"; "❄️"; "⛈️"; "🌀"].

(** ** The component state (App.js 48-57) *)

Inductive DisplayMode : Type := basic | precip.

Module Place.
(** An entry of [cities], and the value of [place]: the object literal of
    lines 76-82. *)
Record t : Type := mk
  { id : string; name : JSValue; country : JSValue; lat : JSValue; lon : JSValue }.
End Place.

Module Hour.
(** An entry of [hours]: the object literal of lines 115-121. *)
Record t : Type := mk
  { key : JSValue; time : JSValue; temp : JSValue; code : JSValue; pop : JSValue }.
End Hour.

(** One field per [useState] cell; [keyboardDismissed] counts the calls of
    [Keyboard.dismiss()]. *)
Record State : Type := mkState
  { query : string;
    recent : list string;
    mode : DisplayMode;
    cities : list Place.t;
    loadingCity : bool;
    loadingWx : bool;
    error : string;
    place : option Place.t;
    hours : list Hour.t;
    keyboardDismissed : nat }.

Definition initial : State :=
  {| query := ""; recent := ["Hamilton"; "Toronto"; "New York"]; mode := basic;
     cities := []; loadingCity := false; loadingWx := false; error := "";
     place := None; hours := []; keyboardDismissed := 0 |}.

(** ** State and exceptions *)

(** A computation reads and writes the component state and either returns or
    throws. *)
Definition M (A : Type) : Type := State -> (Exn + A) * State.

#[global] Instance M_ret : MRet M := fun A a s => (inr a, s).
#[global] Instance M_bind : MBind M := fun A B f m s =>
  match m s with
  | (inr a, s1) => f a s1
  | (inl e, s1) => (inl e, s1)
  end.

Definition throw {A} (e : Exn) : M A := fun s => (inl e, s).

(** A pure step that may throw. *)
Definition lift {A} (r : Exn + A) : M A := fun s => (r, s).

Definition gets {A} (f : State -> A) : M A := fun s => (inr (f s), s).
Definition modify (f : State -> State) : M unit := fun s => (inr tt, f s).

Definition with_query (v : string) (s : State) : State :=
  mkState v (recent s) (mode s) (cities s) (loadingCity s) (loadingWx s)
          (error s) (place s) (hours s) (keyboardDismissed s).
Definition setQuery (v : string) : M unit := modify (with_query v).
Definition with_recent (f : list string -> list string) (s : State) : State :=
  mkState (query s) (f (recent s)) (mode s) (cities s) (loadingCity s) (loadingWx s)
          (error s) (place s) (hours s) (keyboardDismissed s).
Definition setRecent (f : list string -> list string) : M unit := modify (with_recent f).
Definition with_mode (v : DisplayMode) (s : State) : State :=
  mkState (query s) (recent s) v (cities s) (loadingCity s) (loadingWx s)
          (error s) (place s) (hours s) (keyboardDismissed s).
Definition setMode (v : DisplayMode) : M unit := modify (with_mode v).
Definition with_cities (v : list Place.t) (s : State) : State :=
  mkState (query s) (recent s) (mode s) v (loadingCity s) (loadingWx s)
          (error s) (place s) (hours s) (keyboardDismissed s).
Definition setCities (v : list Place.t) : M unit := modify (with_cities v).
Definition with_loadingCity (v : bool) (s : State) : State :=
  mkState (query s) (recent s) (mode s) (cities s) v (loadingWx s)
          (error s) (place s) (hours s) (keyboardDismissed s).
Definition setLoadingCity (v : bool) : M unit := modify (with_loadingCity v).
Definition with_loadingWx (v : bool) (s : State) : State :=
  mkState (query s) (recent s) (mode s) (cities s) (loadingCity s) v
          (error s) (place s) (hours s) (keyboardDismissed s).
Definition setLoadingWx (v : bool) : M unit := modify (with_loadingWx v).
Definition with_error (v : string) (s : State) : State :=
  mkState (query s) (recent s) (mode s) (cities s) (loadingCity s) (loadingWx s)
          v (place s) (hours s) (keyboardDismissed s).
Definition setError (v : string) : M unit := modify (with_error v).
Definition with_place (v : option Place.t) (s : State) : State :=
  mkState (query s) (recent s) (mode s) (cities s) (loadingCity s) (loadingWx s)
          (error s) v (hours s) (keyboardDismissed s).
Definition setPlace (v : option Place.t) : M unit := modify (with_place v).
Definition with_hours (v : list Hour.t) (s : State) : State :=
  mkState (query s) (recent s) (mode s) (cities s) (loadingCity s) (loadingWx s)
          (error s) (place s) v (keyboardDismissed s).
Definition setHours (v : list Hour.t) : M unit := modify (with_hours v).
Definition with_keyboardDismissed (s : State) : State :=
  mkState (query s) (recent s) (mode s) (cities s) (loadingCity s) (loadingWx s)
          (error s) (place s) (hours s) (S (keyboardDismissed s)).
Definition Keyboard_dismiss : M unit := modify with_keyboardDismissed.

(** [try { body } catch (e) { handler } finally { fin }] for a body that runs
    to its end without suspending. *)
Definition try_catch_finally (body : M unit) (handler : Exn -> M unit) (fin : M unit)
  : M unit := fun s =>
  match body s with
  | (inr _, s1) => fin s1
  | (inl e, s1) =>
      match handler e s1 with
      | (inr _, s2) => fin s2
      | (inl e', s2) =>
          match fin s2 with
          | (inr _, s3) => (inl e', s3)
          | thrown => thrown
          end
      end
  end.

(** ** Requests and asynchronous actions *)

(** What [fetch] resolves to: [res.ok], and what [res.json()] settles to. *)
Record Response : Type := mkResponse { ok : bool; json : Exn + JSValue }.

Inductive FetchOutcome : Type :=
  | Rejected (e : Exn)
  | Resolved (res : Response).

(** [await fetch(url)], once the request has settled. *)
Definition await (out : FetchOutcome) : M Response :=
  match out with
  | Rejected e => throw e
  | Resolved res => mret res
  end.

(** The rest of an action after its [await fetch(url)]: what the suspended
    closure still needs ([q] for a search, nothing for a forecast). *)
Inductive Continuation : Type :=
  | SearchCont (q : string)
  | ForecastCont.

(** How the synchronous prefix of an action ends: the action is over, or it
    waits for a request. *)
Inductive Task : Type :=
  | Finished
  | Awaiting (url : string) (k : Continuation).

(** The [try] statement whose body reaches an [await]: when the body suspends,
    [catch] and [finally] stay armed for the continuation; when it throws
    before that, they run at once. *)
Definition try_prefix (body : M Task) (handler : Exn -> M unit) (fin : M unit)
  : M Task := fun s =>
  match body s with
  | (inr (Awaiting url k), s1) => (inr (Awaiting url k), s1)
  | (inr Finished, s1) => (fin ;; mret Finished) s1
  | (inl e, s1) => (try_catch_finally (throw e) handler fin ;; mret Finished) s1
  end.

(** ** Pure steps that may throw *)

#[global] Instance result_ret : MRet (sum Exn) := fun A a => inr a.
#[global] Instance result_bind : MBind (sum Exn) := fun A B f r =>
  match r with
  | inl e => inl e
  | inr a => f a
  end.

(** [items.map((x, i) => f i x)]; the first callback that throws ends it. *)
Fixpoint map_from {B} (f : nat -> JSValue -> Exn + B) (i : nat) (items : list JSValue)
  : Exn + list B :=
  match items with
  | [] => inr []
  | x :: rest =>
      y ← f i x;
      ys ← map_from f (S i) rest;
      mret (y :: ys)
  end.

(** [v.map(f)]: only an array has a callable [map]. *)
Definition js_map {B} (f : nat -> JSValue -> Exn + B) (v : JSValue) : Exn + list B :=
  match v with
  | JArr items => map_from f 0 items
  | _ => inl TypeError
  end.

(** [v.slice(0, n)], for a [v] that is neither [null] nor [undefined]: arrays
    and strings have [slice]; calling it on anything else throws. *)
Definition js_slice0 (n : nat) (v : JSValue) : Exn + JSValue :=
  match v with
  | JArr items => inr (JArr (take n items))
  | JStr s => inr (JStr (String.substring 0 n s))
  | _ => inl TypeError
  end.

(** Whether converting a parsed value to text throws.  A parsed object whose
    own field [toString] shadows the method has no conversion left ([valueOf]
    gives back the object), so the conversion throws [TypeError]; an array
    joins the texts of its entries. *)
Fixpoint templateThrows (v : JSValue) : bool :=
  match v with
  | JObj fields => existsb (fun field => String.eqb field.1 "toString") fields
  | JArr items => existsb templateThrows items
  | _ => false
  end.

(** ** Built-ins the program calls *)

(** Library functions whose results depend on Unicode tables, the locale or
    number formatting.  The development holds for every implementation. *)
Class Builtins : Type :=
  { (** [String.prototype.trim] *)
    trim : string -> string;
    (** [String.prototype.toLowerCase] *)
    toLowerCase : string -> string;
    (** [encodeURIComponent], which throws [URIError] on a lone surrogate *)
    encodeURIComponent : string -> Exn + string;
    (** the text a template literal gives for a JSON value whose conversion
        does not throw (see [templateThrows]) *)
    ToString : JSValue -> string;
    (** the helper [hour] of line 32 *)
    hour : JSValue -> string;
    (** [Math.round] *)
    Math_round : JSValue -> JSValue }.

Section App.

Context `{Builtins}.

(** *** searchCity (App.js 62-93) *)

Definition searchFailed : string :=
  "City search failed. Check your connection or try a different name.".

Definition geocodingUrl (q : string) : Exn + string :=
  name ← encodeURIComponent q;
  mret ("https://geocoding-api.open-meteo.com/v1/search?name=" ++ name
        ++ "&count=5&language=en&format=json").

(** The template literal with one hole of line 77. *)
Definition template (v : JSValue) : Exn + string :=
  if templateThrows v then inl TypeError else inr (ToString v).

(** The callback of lines 76-82. *)
Definition toCity (r : JSValue) : Exn + Place.t :=
  id ← js_get r "id";
  id ← template id;
  name ← js_get r "name";
  country ← js_get r "country";
  latitude ← js_get r "latitude";
  longitude ← js_get r "longitude";
  mret (Place.mk id name country latitude longitude).

(** The updater of lines 84-87. *)
Definition nextRecent (q : string) (prev : list string) : list string :=
  take 8 (q :: filter (fun x => toLowerCase x ≠ toLowerCase q) prev).

(** The candidates of a parsed body, lines 76-82. *)
Definition geocodingCities (data : JSValue) : Exn + list Place.t :=
  results ← js_get data "results";
  js_map (fun _ r => toCity r) (js_or results (JArr [])).

(** Lines 73-87, from the moment the request has settled. *)
Definition searchCity_body (q : string) (out : FetchOutcome) : M unit :=
  res ← await out;
  (if negb (ok res) then throw (Error "Geocoding failed") else mret tt);;
  data ← lift (json res);
  found ← lift (geocodingCities data);
  setCities found;;
  setRecent (nextRecent q).

Definition searchCity_catch (e : Exn) : M unit := setError searchFailed.
Definition searchCity_finally : M unit := setLoadingCity false.

(** [text || query]: [text] is [undefined] when the action is called without
    an argument. *)
Definition text_or_query (text : option string) (query : string) : string :=
  match text with
  | Some t => if String.eqb t "" then query else t
  | None => query
  end.

(** The action up to its [await fetch(url)].  [query] is the value the cell
    had in the render that created the closure. *)
Definition searchCity (query : string) (text : option string) : M Task :=
  let q := trim (text_or_query text query) in
  if String.eqb q "" then mret Finished else
  Keyboard_dismiss;;
  setLoadingCity true;;
  setError "";;
  setCities [];;
  try_prefix
    (url ← lift (geocodingUrl q);
     mret (Awaiting url (SearchCont q)))
    searchCity_catch searchCity_finally.

(** *** fetchWeather (App.js 96-128) *)

Definition forecastFailed : string := "Could not load forecast. Please try again.".

Definition hourlyFields (m : DisplayMode) : string :=
  match m with
  | precip => "temperature_2m,precipitation_probability,weathercode"
  | basic => "temperature_2m,weathercode"
  end.

(** The URL of line 106.  The coordinates of a place that can be pressed are
    numbers (the row of any other candidate throws when rendered, line 150),
    and the conversion of a number does not throw. *)
Definition forecastUrl (p : Place.t) (m : DisplayMode) : string :=
  "https://api.open-meteo.com/v1/forecast?latitude=" ++ ToString (Place.lat p)
  ++ "&longitude=" ++ ToString (Place.lon p)
  ++ "&hourly=" ++ hourlyFields m ++ "&timezone=auto".

(** [data?.hourly?.field || []] *)
Definition hourlySeries (data : JSValue) (field : string) : JSValue :=
  js_or (js_get_opt (js_get_opt data "hourly") field) (JArr []).

(** Lines 110-121. *)
Definition forecastRows (data : JSValue) : Exn + list Hour.t :=
  let t := hourlySeries data "time" in
  let temp := hourlySeries data "temperature_2m" in
  let code := hourlySeries data "weathercode" in
  let pop := hourlySeries data "precipitation_probability" in
  first ← js_slice0 24 t;
  js_map (fun i time =>
            inr (Hour.mk time time (js_index temp i) (js_index code i)
                         (if truthy pop then js_index pop i else JUndefined)))
         first.

(** Lines 107-122, from the moment the request has settled. *)
Definition fetchWeather_body (out : FetchOutcome) : M unit :=
  res ← await out;
  (if negb (ok res) then throw (Error "Forecast failed") else mret tt);;
  data ← lift (json res);
  rows ← lift (forecastRows data);
  setHours rows.

Definition fetchWeather_catch (e : Exn) : M unit := setError forecastFailed.
Definition fetchWeather_finally : M unit := setLoadingWx false.

(** The action up to its [await fetch(url)]; [None] is a falsy [p].  The
    closure's [mode] is the cell's value: a press handler belongs to the
    current render, and the effect of lines 131-134 to the render that
    follows [setMode]. *)
Definition fetchWeather (p : option Place.t) : M Task :=
  match p with
  | None => mret Finished
  | Some pl =>
      setLoadingWx true;;
      setError "";;
      setPlace (Some pl);;
      setHours [];;
      try_prefix
        (m ← gets mode;
         mret (Awaiting (forecastUrl pl m) ForecastCont))
        fetchWeather_catch fetchWeather_finally
  end.

(** *** Resuming a suspended action *)

Definition resume (k : Continuation) (out : FetchOutcome) : M unit :=
  match k with
  | SearchCont q =>
      try_catch_finally (searchCity_body q out) searchCity_catch searchCity_finally
  | ForecastCont =>
      try_catch_finally (fetchWeather_body out) fetchWeather_catch fetchWeather_finally
  end.

(** An action whose request settles with [out] before anything else happens. *)
Definition complete (action : M Task) (out : FetchOutcome) : M unit :=
  task ← action;
  match task with
  | Finished => mret tt
  | Awaiting _ k => resume k out
  end.

(** *** Rendering (App.js 154-163, 242-260) *)

(** The children of one forecast row; [hourPop] is the optional fourth
    [Text], holding the value printed before the percent sign. *)
Record Row : Type := mkRow
  { hourTime : string; hourEmoji : string; hourTemp : JSValue; hourPop : option JSValue }.

Definition HourRow (m : DisplayMode) (item : Hour.t) : Row :=
  {| hourTime := hour (Hour.time item);
     hourEmoji := codeToEmoji (Hour.code item);
     hourTemp := Math_round (Hour.temp item);
     hourPop := match m with
                | precip => Some (js_nullish (Hour.pop item) (JNum 0))
                | basic => None
                end |}.

(** The forecast card of lines 242-258. *)
Inductive ForecastCard : Type :=
  | NoCard
  | Spinner
  | Rows (rows : list Row).

Definition forecastCard (s : State) : ForecastCard :=
  match place s with
  | None => NoCard
  | Some _ => if loadingWx s then Spinner else Rows (map (HourRow (mode s)) (hours s))
  end.

(** The error line of line 260. *)
Definition errorText (s : State) : option string :=
  if String.eqb (error s) "" then None else Some (error s).

(** *** The running application *)

(** The state cells and the requests not yet settled, oldest first. *)
Record System : Type := mkSystem
  { ui : State; inflight : list (string * Continuation) }.

(** Runs an action up to its suspension and records the request it waits for. *)
Definition start (action : M Task) (sys : System) : System :=
  match action (ui sys) with
  | (inr (Awaiting url k), s) => mkSystem s (inflight sys ++ [(url, k)])
  | (_, s) => mkSystem s (inflight sys)
  end.

(** The effect of lines 131-134. *)
Definition modeEffect : M Task :=
  p ← gets place;
  match p with
  | Some pl => fetchWeather (Some pl)
  | None => mret Finished
  end.

(** A [ModeChip] press: [setMode(value)]; the effect depends on [mode] alone
    and runs when the value has changed. *)
Definition pressMode (value : DisplayMode) : M Task :=
  m ← gets mode;
  match m, value with
  | basic, basic | precip, precip => mret Finished
  | _, _ => setMode value;; modeEffect
  end.

Inductive Event : Type :=
  | ChangeText (s : string)
  | Submit
  | PressRecent (i : nat)
  | PressMode (value : DisplayMode)
  | PressCity (i : nat)
  | Settle (n : nat) (out : FetchOutcome).

Definition step (ev : Event) (sys : System) : System :=
  match ev with
  | ChangeText s => start (setQuery s;; mret Finished) sys
  | Submit => start (current ← gets query; searchCity current None) sys
  | PressRecent i =>
      match recent (ui sys) !! i with
      | Some item =>
          start (current ← gets query; setQuery item;; searchCity current (Some item)) sys
      | None => sys
      end
  | PressMode value => start (pressMode value) sys
  | PressCity i =>
      if loadingCity (ui sys) then sys else
      match cities (ui sys) !! i with
      | Some item => start (fetchWeather (Some item)) sys
      | None => sys
      end
  | Settle n out =>
      match inflight sys !! n with
      | Some (_, k) => mkSystem (resume k out (ui sys)).2 (delete n (inflight sys))
      | None => sys
      end
  end.

Fixpoint run (evs : list Event) (sys : System) : System :=
  match evs with
  | [] => sys
  | ev :: rest => run rest (step ev sys)
  end.

(** *** Vocabulary of the properties *)

(** The row that lines 115-121 build at index [i]. *)
Definition zipped (data : JSValue) (i : nat) (time : JSValue) : Hour.t :=
  Hour.mk time time
          (js_index (hourlySeries data "temperature_2m") i)
          (js_index (hourlySeries data "weathercode") i)
          (js_index (hourlySeries data "precipitation_probability") i).

(** What sends an action to its [catch] block once the request has settled:
    [fetch] rejects, the status is not a success, [res.json()] rejects, or
    processing the parsed body throws. *)
Definition thrown {A} (process : JSValue -> Exn + A) (out : FetchOutcome) : bool :=
  match out with
  | Rejected _ => true
  | Resolved res =>
      negb (ok res)
      || match json res ≫= process with
         | inl _ => true
         | inr _ => false
         end
  end.

(** The state in which [fetchWeather(p)] suspends. *)
Definition forecastPending (p : Place.t) (s : State) : State :=
  with_hours [] (with_place (Some p) (with_error "" (with_loadingWx true s))).

(** The state in which [searchCity] suspends. *)
Definition searchPending (s : State) : State :=
  with_cities [] (with_error "" (with_loadingCity true (with_keyboardDismissed s))).

(** The query that [searchCity(text)] submits, given the [query] cell. *)
Definition submitted (query : string) (text : option string) : string :=
  trim (text_or_query text query).

(** No two entries are equal up to case. *)
Definition distinctIgnoringCase (l : list string) : Prop :=
  NoDup (toLowerCase <$> l).

(** [typeof v === "number"] *)
Definition isNumber (v : JSValue) : bool :=
  match v with
  | JNum _ => true
  | _ => false
  end.

End App.

(** ** The rest of the screen *)

Section Screen.

Context `{Builtins}.

(** [Number.prototype.toFixed]: the number and the count of digits. *)
Variable toFixed : Q -> nat -> string.

(** [v.toFixed(n)]: reading the method of [null] or [undefined] throws, and
    only a number has a callable [toFixed]. *)
Definition js_toFixed (v : JSValue) (n : nat) : Exn + string :=
  match v with
  | JNum q => inr (toFixed q n)
  | _ => inl TypeError
  end.

(** The children of one candidate row (App.js 147-152): the name, and the
    country with the two coordinates.  What React then does with the
    children is not part of the model. *)
Record CityRow : Type := mkCityRow
  { cityName : JSValue; cityCountry : JSValue; cityLat : string; cityLon : string }.

Definition CityItem (item : Place.t) : Exn + CityRow :=
  latitude ← js_toFixed (Place.lat item) 2;
  longitude ← js_toFixed (Place.lon item) 2;
  mret (mkCityRow (Place.name item) (Place.country item) latitude longitude).

End Screen.

(** The candidate card of lines 226-239: the spinner while a search loads,
    else the list when it is not empty. *)
Inductive CityCard : Type :=
  | CitySpinner
  | NoCities
  | CityList (items : list Place.t).

Definition cityCard (s : State) : CityCard :=
  if loadingCity s then CitySpinner
  else match cities s with
       | [] => NoCities
       | items => CityList items
       end.

(** The recent chips of lines 209-223, shown when the list is not empty. *)
Definition recentChips (s : State) : option (list string) :=
  match recent s with
  | [] => None
  | items => Some items
  end.

(** *** Vocabulary of the further properties *)

#[global] Instance DisplayMode_eq_dec : EqDecision DisplayMode.
Proof. solve_decision. Defined.

Definition nullish (v : JSValue) : bool :=
  match v with
  | JUndefined | JNull => true
  | _ => false
  end.

(** The codes that [codeToEmoji] names, in the order of its tests. *)
Definition namedCodes : list Z :=
  [0; 1; 2; 3; 45; 48; 51; 53; 55; 56; 57; 61; 63; 65; 66; 67; 80; 81; 82;
   71; 73; 75; 77; 85; 86; 95; 96; 99]%Z.

Definition isSearch (request : string * Continuation) : bool :=
  match request.2 with
  | SearchCont _ => true
  | ForecastCont => false
  end.

Definition isForecast (request : string * Continuation) : bool :=
  match request.2 with
  | SearchCont _ => false
  | ForecastCont => true
  end.

Section Transitions.

Context `{Builtins}.

(** The candidate that lines 76-82 build from an entry that is neither
    [null] nor [undefined] and whose [id] converts to text. *)
Definition cityOf (r : JSValue) : Place.t :=
  Place.mk (ToString (js_get_opt r "id")) (js_get_opt r "name")
           (js_get_opt r "country") (js_get_opt r "latitude")
           (js_get_opt r "longitude").

(** An entry from which lines 76-82 build a candidate. *)
Definition usable (r : JSValue) : Prop :=
  nullish r = false /\ templateThrows (js_get_opt r "id") = false.

(** What one event can do to the running application: the cases of [step],
    each with the state it produces. *)
Inductive Transition (sys : System) : System -> Prop :=
  | T_none : Transition sys sys
  | T_text (t : string) :
      Transition sys (mkSystem (with_query t (ui sys)) (inflight sys))
  | T_search (s0 : State) (q url : string) :
      s0 = ui sys \/ (exists item, item ∈ recent (ui sys) /\ s0 = with_query item (ui sys)) ->
      q <> "" ->
      geocodingUrl q = inr url ->
      Transition sys (mkSystem (searchPending s0) (inflight sys ++ [(url, SearchCont q)]))
  | T_search_unsent (s0 : State) :
      s0 = ui sys \/ (exists item, item ∈ recent (ui sys) /\ s0 = with_query item (ui sys)) ->
      Transition sys (mkSystem (with_loadingCity false
                                  (with_error searchFailed (searchPending s0)))
                               (inflight sys))
  | T_mode (value : DisplayMode) :
      place (ui sys) = None ->
      Transition sys (mkSystem (with_mode value (ui sys)) (inflight sys))
  | T_forecast (s0 : State) (p : Place.t) :
      (s0 = ui sys /\ p ∈ cities (ui sys) /\ loadingCity (ui sys) = false)
      \/ (exists value, place (ui sys) = Some p /\ mode (ui sys) <> value
                        /\ s0 = with_mode value (ui sys)) ->
      Transition sys (mkSystem (forecastPending p s0)
                               (inflight sys ++ [(forecastUrl p (mode s0), ForecastCont)]))
  | T_found (n : nat) (url q : string) (data : JSValue) (found : list Place.t) :
      inflight sys !! n = Some (url, SearchCont q) ->
      geocodingCities data = inr found ->
      Transition sys (mkSystem (with_loadingCity false
                                  (with_recent (nextRecent q) (with_cities found (ui sys))))
                               (delete n (inflight sys)))
  | T_search_failed (n : nat) (url q : string) :
      inflight sys !! n = Some (url, SearchCont q) ->
      Transition sys (mkSystem (with_loadingCity false (with_error searchFailed (ui sys)))
                               (delete n (inflight sys)))
  | T_rows (n : nat) (url : string) (data : JSValue) (rows : list Hour.t) :
      inflight sys !! n = Some (url, ForecastCont) ->
      forecastRows data = inr rows ->
      Transition sys (mkSystem (with_loadingWx false (with_hours rows (ui sys)))
                               (delete n (inflight sys)))
  | T_forecast_failed (n : nat) (url : string) :
      inflight sys !! n = Some (url, ForecastCont) ->
      Transition sys (mkSystem (with_loadingWx false (with_error forecastFailed (ui sys)))
                               (delete n (inflight sys))).

(** The states the application reaches from [sys]. *)
Definition reachable (sys sys' : System) : Prop := exists evs, sys' = run evs sys.

End Transitions.

(** ** A concrete runtime

    ASCII behaviour of the built-ins, to evaluate the model on examples.  It
    covers what the examples use: ASCII text, integer numbers, ISO time
    stamps.  Other values print as a fixed placeholder. *)
Module Sample.

Fixpoint dropSpaces (s : string) : string :=
  match s with
  | String " "%char rest => dropSpaces rest
  | _ => s
  end.

Definition trim (s : string) : string :=
  String.rev (dropSpaces (String.rev (dropSpaces s))).

Definition lower (c : ascii) : ascii :=
  let n := Ascii.nat_of_ascii c in
  if (65 <=? n)%nat && (n <=? 90)%nat then Ascii.ascii_of_nat (n + 32) else c.

Fixpoint toLowerCase (s : string) : string :=
  match s with
  | EmptyString => EmptyString
  | String c rest => String (lower c) (toLowerCase rest)
  end.

Definition unreserved (c : ascii) : bool :=
  let n := Ascii.nat_of_ascii c in
  ((65 <=? n)%nat && (n <=? 90)%nat) || ((97 <=? n)%nat && (n <=? 122)%nat)
  || ((48 <=? n)%nat && (n <=? 57)%nat)
  || bool_decide (c ∈ String.list_ascii_of_string "-_.!~*'()").

Definition hexDigit (n : nat) : ascii :=
  Ascii.ascii_of_nat (if (n <? 10)%nat then 48 + n else 55 + n).

Fixpoint percentEncode (s : string) : string :=
  match s with
  | EmptyString => EmptyString
  | String c rest =>
      if unreserved c then String c (percentEncode rest)
      else let n := Ascii.nat_of_ascii c in
           String "%"%char (String (hexDigit (n / 16)) (String (hexDigit (n mod 16))
                                                      (percentEncode rest)))
  end.

Definition ToString (v : JSValue) : string :=
  match v with
  | JUndefined => "undefined"
  | JNull => "null"
  | JBool true => "true"
  | JBool false => "false"
  | JNum q => match Qden q with
              | 1%positive => NilZero.string_of_int (Z.to_int (Qnum q))
              | _ => "?"
              end
  | JStr s => s
  | JArr _ => "?"
  | JObj _ => "[object Object]"
  end.

(** "2025-03-01T14:00" is shown as "14:00". *)
Definition hour (iso : JSValue) : string :=
  match iso with
  | JStr s => String.substring 11 5 s
  | _ => "Invalid Date"
  end.

(** Halves round towards positive infinity. *)
Definition Math_round (v : JSValue) : JSValue :=
  match v with
  | JNum q => JNum (inject_Z (Qfloor (q + (1 # 2))))
  | _ => JUndefined
  end.

Definition builtins : Builtins :=
  Build_Builtins trim toLowerCase (fun s => inr (percentEncode s)) ToString hour Math_round.

End Sample.

(** Two-digit [toFixed] for the examples: halves round away from zero. *)
Definition sampleToFixed (q : Q) (digits : nat) : string :=
  let scale := (10 ^ Z.of_nat digits)%Z in
  let magnitude := if Qlt_le_dec q 0 then (- q)%Q else q in
  let n := Qfloor (magnitude * inject_Z scale + (1 # 2)) in
  let fraction := NilZero.string_of_int (Z.to_int (n mod scale)) in
  (if Qlt_le_dec q 0 then "-" else "")
  ++ NilZero.string_of_int (Z.to_int (n / scale)) ++ "."
  ++ String.concat "" (repeat "0" (digits - String.length fraction)) ++ fraction.

(** ** Concrete inputs *)

Definition hamilton : Place.t :=
  Place.mk "5969782" (JStr "Hamilton") (JStr "Canada") (JNum 43) (JNum (-80)).

(** Three hours of a temperature-only answer. *)
Definition threeHours : JSValue :=
  JObj [("hourly",
         JObj [("time", JArr [JStr "2025-03-01T00:00"; JStr "2025-03-01T01:00";
                              JStr "2025-03-01T02:00"]);
               ("temperature_2m", JArr [JNum (7 # 2); JNum 3; JNum (-1 # 2)]);
               ("weathercode", JArr [JNum 0; JNum 61; JNum 71])])].

(** Thirty hours, with a precipitation series. *)
Definition thirtyHours : JSValue :=
  let series := JArr (map (fun i => JNum (inject_Z (Z.of_nat i))) (seq 0 30)) in
  JObj [("hourly",
         JObj [("time", series); ("temperature_2m", series);
               ("precipitation_probability", series); ("weathercode", series)])].

Definition answer (data : JSValue) : FetchOutcome :=
  Resolved (mkResponse true (inr data)).

Definition result (id : Z) (name : string) (coordinates : list (string * JSValue))
  : JSValue :=
  JObj ([("id", JNum (inject_Z id)); ("name", JStr name);
         ("country", JStr "United States")] ++ coordinates).

(** Six matches, the last one without coordinates. *)
Definition sixResults : JSValue :=
  JObj [("results",
         JArr [result 1 "Springfield" [("latitude", JNum 37); ("longitude", JNum (-93))];
               result 2 "Springfield" [("latitude", JNum 39); ("longitude", JNum (-89))];
               result 3 "Springfield" [("latitude", JNum 42); ("longitude", JNum (-72))];
               result 4 "Springfield" [("latitude", JNum 44); ("longitude", JNum (-123))];
               result 5 "Springfield" [("latitude", JNum 39); ("longitude", JNum (-83))];
               result 6 "Springfield" []])].

(** Toronto and Hamilton are candidates; Toronto is pressed first. *)
Definition twoCandidates : System :=
  mkSystem (with_cities [Place.mk "6167865" (JStr "Toronto") (JStr "Canada")
                                  (JNum 44) (JNum (-79));
                         hamilton] initial) [].

Definition toronto : Place.t :=
  Place.mk "6167865" (JStr "Toronto") (JStr "Canada") (JNum 44) (JNum (-79)).

(** An answer of the geocoding service with Hamilton as its one match. *)
Definition hamiltonFound : JSValue :=
  JObj [("results",
         JArr [JObj [("id", JNum 5969782); ("name", JStr "Hamilton");
                     ("country", JStr "Canada"); ("latitude", JNum 43);
                     ("longitude", JNum (-80))]])].

(** A state whose recent list is full. *)
Definition eightRecent : State :=
  with_recent (fun _ => ["Paris"; "Rome"; "Oslo"; "Lima"; "Cairo"; "Quito"; "Seoul";
                         "Tokyo"]) initial.

(** An entry whose [id] cannot be converted to text. *)
Definition oddId : JSValue :=
  JObj [("results",
         JArr [JObj [("id", JObj [("toString", JNum 1)]); ("name", JStr "Hamilton");
                     ("latitude", JNum 43); ("longitude", JNum (-80))]])].

(** The application with Hamilton selected and nothing in flight. *)
Definition selected : System := mkSystem (with_place (Some hamilton) initial) [].

(** ** Properties *)

(** *** Arrays *)

Lemma map_from_total {B} (g : nat -> JSValue -> B) (items : list JSValue) (n : nat) :
  map_from (fun i x => inr (g i x)) n items = inr (imap (fun i => g (n + i)) items).
Proof.
  revert n. induction items as [|x rest IH]; intros n; simpl; [done|].
  rewrite IH. unfold mbind, mret, result_bind, result_ret. do 2 f_equal.
  - by rewrite Nat.add_0_r.
  - apply imap_ext. intros i y _. simpl. f_equal. lia.
Qed.

Lemma map_from_inr {B} (f : JSValue -> Exn + B) (items : list JSValue) (n : nat) ys :
  map_from (fun _ x => f x) n items = inr ys ->
  Forall2 (fun x y => f x = inr y) items ys.
Proof.
  revert n ys. induction items as [|x rest IH]; intros n ys; simpl.
  - intros [= <-]. constructor.
  - unfold mbind, mret, result_bind, result_ret.
    destruct (f x) as [e|y] eqn:Hx; [done|].
    destruct (map_from _ (S n) rest) as [e|ys'] eqn:Hrest; [done|].
    intros [= <-]. constructor; [done|]. by eapply IH.
Qed.

Lemma filter_all {A} (P : A -> Prop) `{forall x, Decision (P x)} (l : list A) :
  Forall P l -> filter P l = l.
Proof.
  induction 1 as [|x l Hx _ IH]; [done|]. by rewrite filter_cons_True, IH.
Qed.

Lemma js_map_inr {B} (f : nat -> JSValue -> Exn + B) (v : JSValue) ys :
  js_map f v = inr ys -> exists items, v = JArr items.
Proof. destruct v; try done. eauto. Qed.

(** *** The weather-code classifier *)

Lemma Qeq_bool_inject_Z (a b : Z) : Qeq_bool (inject_Z a) (inject_Z b) = (a =? b)%Z.
Proof.
  destruct (Z.eqb_spec a b) as [->|Hne].
  - apply Qeq_bool_iff. reflexivity.
  - apply not_true_is_false. intros Heq%Qeq_bool_iff. apply Hne.
    unfold Qeq in Heq. simpl in Heq. lia.
Qed.

Lemma includes_integer (lits : list Z) (z : Z) :
  includes lits (JNum (inject_Z z)) = existsb (Z.eqb z) lits.
Proof.
  simpl. induction lits as [|n rest IH]; simpl; [done|].
  by rewrite Qeq_bool_inject_Z, IH.
Qed.

Lemma includes_Qeq (lits : list Z) (q1 q2 : Q) :
  q1 == q2 -> includes lits (JNum q1) = includes lits (JNum q2).
Proof.
  intros Heq. simpl. induction lits as [|n rest IH]; simpl; [done|].
  rewrite IH. f_equal.
  destruct (Qeq_bool q2 (inject_Z n)) eqn:E.
  - apply Qeq_bool_iff. apply Qeq_bool_iff in E. by rewrite Heq.
  - apply not_true_is_false. intros E'%Qeq_bool_iff.
    apply not_true_iff_false in E. apply E, Qeq_bool_iff. by rewrite <- Heq.
Qed.

Lemma codeToEmoji_in_emojis (v : JSValue) : codeToEmoji v ∈ emojis.
Proof.
  unfold codeToEmoji, emojis.
  repeat match goal with
         | |- context [if includes ?l v then _ else _] => destruct (includes l v)
         end;
    repeat (first [apply list_elem_of_here | apply list_elem_of_further]).
Qed.

(** C2. The classifier is a function from values to the nine icons: every
    integer code (indeed every value) is mapped to one of the nine pairwise
    different icons, each icon is the image of some integer code, and codes
    that are equal as numbers get the same icon. *)
Theorem codeToEmoji_total :
  (forall z : Z, codeToEmoji (JNum (inject_Z z)) ∈ emojis)
  /\ (forall v : JSValue, codeToEmoji v ∈ emojis)
  /\ length emojis = 9
  /\ NoDup emojis
  /\ (forall e, e ∈ emojis -> exists z : Z, codeToEmoji (JNum (inject_Z z)) = e)
  /\ (forall z : Z,
        codeToEmoji (JNum (inject_Z z)) = "🌀"
        <-> z ∉ [0; 1; 2; 3; 45; 48; 51; 53; 55; 56; 57; 61; 63; 65; 66; 67; 80; 81; 82;
                 71; 73; 75; 77; 85; 86; 95; 96; 99]%Z)
  /\ (forall q1 q2 : Q, q1 == q2 -> codeToEmoji (JNum q1) = codeToEmoji (JNum q2)).
Proof.
  split_and!.
  - intros z. apply codeToEmoji_in_emojis.
  - apply codeToEmoji_in_emojis.
  - reflexivity.
  - by apply (bool_decide_unpack _); vm_compute.
  - intros e He. unfold emojis in He.
    repeat (apply elem_of_cons in He; destruct He as [->|He]);
      first [by exists 0%Z|by exists 1%Z|by exists 3%Z|by exists 45%Z|by exists 51%Z
            |by exists 61%Z|by exists 71%Z|by exists 95%Z|by exists 4%Z
            |by apply elem_of_nil in He].
  - intros z. unfold codeToEmoji. rewrite !includes_integer.
    cbn [existsb]. rewrite !not_elem_of_cons.
    pose proof (not_elem_of_nil z).
    repeat match goal with
           | |- context [(z =? ?n)%Z] => destruct (Z.eqb_spec z n) as [->|?]
           end; simpl; intuition (try discriminate; try lia).
  - intros q1 q2 Heq. unfold codeToEmoji.
    by rewrite !(includes_Qeq _ q1 q2 Heq).
Qed.

Section Properties.

Context `{Builtins}.

(** *** The forecast rows *)

Lemma hourlySeries_truthy data field : truthy (hourlySeries data field) = true.
Proof.
  unfold hourlySeries, js_or.
  by destruct (truthy (js_get_opt (js_get_opt data "hourly") field)) eqn:E.
Qed.

Lemma forecastRows_array data ts :
  hourlySeries data "time" = JArr ts ->
  forecastRows data = inr (imap (zipped data) (take 24 ts)).
Proof.
  intros Ht. unfold forecastRows. rewrite Ht. simpl.
  rewrite hourlySeries_truthy.
  unfold mbind, result_bind. simpl. by rewrite map_from_total.
Qed.

Lemma forecastRows_inr data rows :
  forecastRows data = inr rows ->
  exists ts, hourlySeries data "time" = JArr ts.
Proof.
  unfold forecastRows. destruct (hourlySeries data "time") eqn:Ht; try done.
  eauto.
Qed.

(** *** The two actions, step by step *)

Lemma fetchWeather_prefix p s :
  fetchWeather (Some p) s
  = (inr (Awaiting (forecastUrl p (mode s)) ForecastCont), forecastPending p s).
Proof. reflexivity. Qed.

(** The body either stores the rows of a well-formed answer or throws and
    leaves the state as it was. *)
Lemma fetchWeather_body_cases out s :
  (exists data rows, out = Resolved (mkResponse true (inr data))
                     /\ forecastRows data = inr rows
                     /\ fetchWeather_body out s = (inr tt, with_hours rows s))
  \/ (exists e, fetchWeather_body out s = (inl e, s)).
Proof.
  destruct out as [e|[[] [e|data]]]; try (right; eexists; reflexivity).
  destruct (forecastRows data) as [e|rows] eqn:Hrows.
  - right. exists e. unfold fetchWeather_body. simpl.
    unfold mbind, M_bind, lift. simpl. by rewrite Hrows.
  - left. exists data, rows. split_and!; [done..|].
    unfold fetchWeather_body. simpl.
    unfold mbind, M_bind, lift. simpl. by rewrite Hrows.
Qed.

Lemma fetchWeather_body_thrown out s :
  thrown forecastRows out -> exists e, fetchWeather_body out s = (inl e, s).
Proof.
  destruct (fetchWeather_body_cases out s) as [(data & rows & -> & Hrows & _)|Hthrown];
    [|done].
  simpl. by rewrite Hrows.
Qed.

Lemma resume_forecast_ok data rows s :
  forecastRows data = inr rows ->
  resume ForecastCont (Resolved (mkResponse true (inr data))) s
  = (inr tt, with_loadingWx false (with_hours rows s)).
Proof.
  intros Hrows. simpl. unfold try_catch_finally, fetchWeather_body. simpl.
  unfold mbind, M_bind, lift. simpl. by rewrite Hrows.
Qed.

Lemma resume_forecast_thrown out s e :
  fetchWeather_body out s = (inl e, s) ->
  resume ForecastCont out s
  = (inr tt, with_loadingWx false (with_error forecastFailed s)).
Proof. intros Hbody. simpl. unfold try_catch_finally. by rewrite Hbody. Qed.

Lemma searchCity_body_cases q out s :
  (exists data found, out = Resolved (mkResponse true (inr data))
                      /\ geocodingCities data = inr found
                      /\ searchCity_body q out s
                         = (inr tt, with_recent (nextRecent q) (with_cities found s)))
  \/ (exists e, searchCity_body q out s = (inl e, s)).
Proof.
  destruct out as [e|[[] [e|data]]]; try (right; eexists; reflexivity).
  destruct (geocodingCities data) as [e|found] eqn:Hfound.
  - right. exists e. unfold searchCity_body. simpl.
    unfold mbind, M_bind, lift. simpl. by rewrite Hfound.
  - left. exists data, found. split_and!; [done..|].
    unfold searchCity_body. simpl.
    unfold mbind, M_bind, lift. simpl. by rewrite Hfound.
Qed.

Lemma searchCity_body_thrown q out s :
  thrown geocodingCities out -> exists e, searchCity_body q out s = (inl e, s).
Proof.
  destruct (searchCity_body_cases q out s) as [(data & found & -> & Hfound & _)|Hthrown];
    [|done].
  simpl. by rewrite Hfound.
Qed.

Lemma resume_search_ok q data found s :
  geocodingCities data = inr found ->
  resume (SearchCont q) (Resolved (mkResponse true (inr data))) s
  = (inr tt, with_loadingCity false (with_recent (nextRecent q) (with_cities found s))).
Proof.
  intros Hfound. simpl. unfold try_catch_finally, searchCity_body. simpl.
  unfold mbind, M_bind, lift. simpl. by rewrite Hfound.
Qed.

Lemma resume_search_thrown q out s e :
  searchCity_body q out s = (inl e, s) ->
  resume (SearchCont q) out s
  = (inr tt, with_loadingCity false (with_error searchFailed s)).
Proof. intros Hbody. simpl. unfold try_catch_finally. by rewrite Hbody. Qed.

Lemma searchCity_empty current text s :
  submitted current text = "" -> searchCity current text s = (inr Finished, s).
Proof.
  intros Hq. unfold searchCity, submitted in *.
  simpl. by rewrite Hq.
Qed.

Lemma searchCity_prefix current text s url :
  submitted current text <> "" ->
  geocodingUrl (submitted current text) = inr url ->
  searchCity current text s
  = (inr (Awaiting url (SearchCont (submitted current text))), searchPending s).
Proof.
  intros Hq Hurl. unfold searchCity, submitted in *.
  destruct (String.eqb_spec (trim (text_or_query text current)) ""); [done|].
  unfold try_prefix, mbind, M_bind, lift. simpl. by rewrite Hurl.
Qed.

Lemma searchCity_prefix_thrown current text s e :
  submitted current text <> "" ->
  geocodingUrl (submitted current text) = inl e ->
  searchCity current text s
  = (inr Finished, with_loadingCity false (with_error searchFailed (searchPending s))).
Proof.
  intros Hq Hurl. unfold searchCity, submitted in *.
  destruct (String.eqb_spec (trim (text_or_query text current)) ""); [done|].
  unfold try_prefix, mbind, M_bind, lift. simpl. by rewrite Hurl.
Qed.

(** Whatever the outcome of the request, a resumed action ends normally. *)
Lemma resume_normal k out s : (resume k out s).1 = inr tt.
Proof.
  destruct k as [q|].
  - destruct (searchCity_body_cases q out s) as [(data & found & -> & Hfound & _)|[e Hbody]].
    + by rewrite (resume_search_ok _ _ _ _ Hfound).
    + by rewrite (resume_search_thrown _ _ _ _ Hbody).
  - destruct (fetchWeather_body_cases out s) as [(data & rows & -> & Hrows & _)|[e Hbody]].
    + by rewrite (resume_forecast_ok _ _ _ Hrows).
    + by rewrite (resume_forecast_thrown _ _ _ Hbody).
Qed.

Lemma searchCity_normal current text s : exists task, (searchCity current text s).1 = inr task.
Proof.
  destruct (decide (submitted current text = "")) as [Hq|Hq].
  - rewrite (searchCity_empty _ _ _ Hq). by eexists.
  - destruct (geocodingUrl (submitted current text)) as [e|url] eqn:Hurl.
    + rewrite (searchCity_prefix_thrown _ _ _ _ Hq Hurl). by eexists.
    + rewrite (searchCity_prefix _ _ _ _ Hq Hurl). by eexists.
Qed.

Lemma complete_normal (action : M Task) out s :
  (exists task, (action s).1 = inr task) -> (complete action out s).1 = inr tt.
Proof.
  intros [task Htask]. unfold complete, mbind, M_bind.
  destruct (action s) as [r s']. simpl in Htask. subst r.
  destruct task as [|url k]; [done|]. apply resume_normal.
Qed.

(** *** Forecast fetch *)

Lemma hourlySeries_field fields h field :
  assoc "hourly" fields = JObj h ->
  hourlySeries (JObj fields) field = js_or (assoc field h) (JArr []).
Proof. intros Hh. unfold hourlySeries, js_get_opt. simpl. by rewrite Hh. Qed.

(** C1. Whatever the place, the display mode and the outcome of the request:
    when the forecast action ends with no error message, the request was
    answered with a success status and a JSON body whose time series is an
    array [ts] (the empty one when the field is missing); [hours] holds one
    sample per entry of the first 24 entries of [ts], so at most 24; sample
    [i] carries [ts[i]] and entry [i] of the temperature, weather-code and
    precipitation series; and when the body has no precipitation series every
    sample has an undefined precipitation value.  In terms of the body: for a
    success answer whose [hourly] object has the arrays [time],
    [temperature_2m] and [weathercode], and [precipitation_probability] as an
    array or not at all, the action ends normally with no error and [hours]
    is, for each [i] below 24 and below the length of [time], the sample
    made of [time[i]], [temperature_2m[i]], [weathercode[i]] and
    [precipitation_probability[i]], each undefined where its array is too
    short or missing; the continuation stores the same rows in whatever state
    it is resumed. *)
Theorem fetchWeather_success_rows (p : Place.t) (s : State) :
  (forall out,
     let done := complete (fetchWeather (Some p)) out s in
     error done.2 = "" ->
     exists data ts,
       out = Resolved (mkResponse true (inr data))
       /\ hourlySeries data "time" = JArr ts
       /\ done.1 = inr tt
       /\ hours done.2 = imap (zipped data) (take 24 ts)
       /\ length (hours done.2) = min 24 (length ts)
       /\ length (hours done.2) <= 24
       /\ (forall i time, i < 24 -> ts !! i = Some time ->
             hours done.2 !! i = Some (zipped data i time))
       /\ (forall temps codes pops i row,
             hourlySeries data "temperature_2m" = JArr temps ->
             hourlySeries data "weathercode" = JArr codes ->
             hourlySeries data "precipitation_probability" = JArr pops ->
             hours done.2 !! i = Some row ->
             exists time, ts !! i = Some time
               /\ row = Hour.mk time time (default JUndefined (temps !! i))
                                 (default JUndefined (codes !! i))
                                 (default JUndefined (pops !! i)))
       /\ (truthy (js_get_opt (js_get_opt data "hourly") "precipitation_probability")
           = false ->
             forall row, row ∈ hours done.2 -> Hour.pop row = JUndefined))
  /\ (forall fields h ts temps codes pops,
        assoc "hourly" fields = JObj h ->
        assoc "time" h = JArr ts ->
        assoc "temperature_2m" h = JArr temps ->
        assoc "weathercode" h = JArr codes ->
        assoc "precipitation_probability" h = JArr pops
        \/ (assoc "precipitation_probability" h = JUndefined /\ pops = []) ->
        let out := Resolved (mkResponse true (inr (JObj fields))) in
        let rows :=
          imap (fun i time =>
                  Hour.mk time time (default JUndefined (temps !! i))
                          (default JUndefined (codes !! i))
                          (default JUndefined (pops !! i)))
               (take 24 ts) in
        complete (fetchWeather (Some p)) out s
        = (inr tt, mkState (query s) (recent s) (mode s) (cities s) (loadingCity s) false
                           "" (Some p) rows (keyboardDismissed s))
        /\ (forall s', resume ForecastCont out s'
                       = (inr tt, with_loadingWx false (with_hours rows s')))
        /\ length rows = min 24 (length ts)
        /\ (forall i time, i < 24 -> ts !! i = Some time ->
              rows !! i = Some (Hour.mk time time (default JUndefined (temps !! i))
                                        (default JUndefined (codes !! i))
                                        (default JUndefined (pops !! i))))).
Proof.
  split.
  { intros out done. subst done. unfold complete, mbind, M_bind.
    rewrite fetchWeather_prefix.
    destruct (fetchWeather_body_cases out (forecastPending p s))
      as [(data & rows & -> & Hrows & _)|[e Hbody]].
    - intros _. destruct (forecastRows_inr _ _ Hrows) as [ts Hts].
      rewrite (forecastRows_array _ _ Hts) in Hrows. injection Hrows as <-.
      rewrite (resume_forecast_ok data _ _ (forecastRows_array _ _ Hts)).
      exists data, ts. simpl. split_and!; try done.
      + by rewrite length_imap, length_take.
      + rewrite length_imap, length_take. lia.
      + intros i time Hi Hlook.
        by rewrite list_lookup_imap, lookup_take_lt, Hlook.
      + intros temps codes pops i row Htemps Hcodes Hpops.
        rewrite list_lookup_imap. intros Hrow.
        destruct (take 24 ts !! i) as [time|] eqn:Htake; [|done].
        injection Hrow as <-. exists time. split.
        * apply lookup_take_Some in Htake. tauto.
        * unfold zipped. by rewrite Htemps, Hcodes, Hpops.
      + intros Hpop row [i Hrow]%list_elem_of_lookup.
        rewrite list_lookup_imap in Hrow.
        destruct (take 24 ts !! i) as [time|]; [|done].
        injection Hrow as <-. unfold zipped, hourlySeries, js_or. simpl.
        rewrite Hpop. simpl. by destruct i.
    - rewrite (resume_forecast_thrown _ _ _ Hbody). simpl. discriminate. }
  intros fields h ts temps codes pops Hh Ht Htemp Hcode Hpop out rows.
  assert (forecastRows (JObj fields) = inr rows) as Hrows.
  { rewrite (forecastRows_array (JObj fields) ts)
        by (by rewrite (hourlySeries_field _ _ _ Hh), Ht).
      f_equal. apply imap_ext. intros i time _. unfold zipped.
      rewrite !(hourlySeries_field _ _ _ Hh), Htemp, Hcode.
      destruct Hpop as [->|[-> ->]]; simpl; [done|]. by destruct i. }
    split_and!.
    + unfold complete, mbind, M_bind. rewrite fetchWeather_prefix.
      by rewrite (resume_forecast_ok _ _ _ Hrows).
    + intros s'. by rewrite (resume_forecast_ok _ _ _ Hrows).
    + subst rows. by rewrite length_imap, length_take.
    + intros i time Hi Hlook. subst rows.
      by rewrite list_lookup_imap, lookup_take_lt, Hlook.
Qed.

(** *** Failures *)

(** C6, as the code has it.  When the request is rejected, is answered with
    a non-success status, or anything thrown sends the action to its [catch]
    block, the action ends normally (nothing is thrown to the caller), and
    what its continuation writes, in whatever state it is resumed, is the
    action's one fixed message in [error], shown on the screen, and its
    loading flag off: every other cell, the candidate list and the hour
    sequence among them, keeps the value it has at that moment.  The list of
    the action was emptied when the action started; so when the request
    settles before any other event the state is exactly: the message, the
    flag off, an empty candidate list (search) or an empty hour sequence
    (forecast, whose place is the requested one), and every other cell as
    before the action.  The same holds for a search whose URL cannot be
    encoded.  Whatever the arguments and the outcome, neither action
    throws. *)
Theorem failure_sets_one_message (s : State) (out : FetchOutcome) :
  (forall current text, submitted current text <> "" ->
     thrown geocodingCities out ->
     complete (searchCity current text) out s
     = (inr tt, mkState (query s) (recent s) (mode s) [] false (loadingWx s)
                        searchFailed (place s) (hours s) (S (keyboardDismissed s))))
  /\ (forall current text e, submitted current text <> "" ->
     geocodingUrl (submitted current text) = inl e ->
     complete (searchCity current text) out s
     = (inr tt, mkState (query s) (recent s) (mode s) [] false (loadingWx s)
                        searchFailed (place s) (hours s) (S (keyboardDismissed s))))
  /\ (forall p,
     thrown forecastRows out ->
     complete (fetchWeather (Some p)) out s
     = (inr tt, mkState (query s) (recent s) (mode s) (cities s) (loadingCity s) false
                        forecastFailed (Some p) [] (keyboardDismissed s)))
  /\ errorText (with_error searchFailed s) = Some searchFailed
  /\ errorText (with_error forecastFailed s) = Some forecastFailed
  /\ (forall current text, (complete (searchCity current text) out s).1 = inr tt)
  /\ (forall p, (complete (fetchWeather p) out s).1 = inr tt)
  /\ (forall q,
     thrown geocodingCities out ->
     resume (SearchCont q) out s
     = (inr tt, mkState (query s) (recent s) (mode s) (cities s) false (loadingWx s)
                        searchFailed (place s) (hours s) (keyboardDismissed s)))
  /\ (thrown forecastRows out ->
      resume ForecastCont out s
      = (inr tt, mkState (query s) (recent s) (mode s) (cities s) (loadingCity s) false
                         forecastFailed (place s) (hours s) (keyboardDismissed s)))
  /\ (forall current text url,
     submitted current text <> "" ->
     geocodingUrl (submitted current text) = inr url ->
     searchCity current text s
     = (inr (Awaiting url (SearchCont (submitted current text))),
        mkState (query s) (recent s) (mode s) [] true (loadingWx s)
                "" (place s) (hours s) (S (keyboardDismissed s))))
  /\ (forall p,
     fetchWeather (Some p) s
     = (inr (Awaiting (forecastUrl p (mode s)) ForecastCont),
        mkState (query s) (recent s) (mode s) (cities s) (loadingCity s) true
                "" (Some p) [] (keyboardDismissed s)))
  /\ (forall fl n url k,
     fl !! n = Some (url, k) ->
     match k with
     | SearchCont _ => thrown geocodingCities out
     | ForecastCont => thrown forecastRows out
     end ->
     let settled := step (Settle n out) (mkSystem s fl) in
     inflight settled = delete n fl
     /\ error (ui settled) = match k with
                             | SearchCont _ => searchFailed
                             | ForecastCont => forecastFailed
                             end
     /\ cities (ui settled) = cities s /\ hours (ui settled) = hours s
     /\ recent (ui settled) = recent s /\ place (ui settled) = place s
     /\ query (ui settled) = query s /\ mode (ui settled) = mode s).
Proof.
  assert (forall q, thrown geocodingCities out ->
            resume (SearchCont q) out s
            = (inr tt, with_loadingCity false (with_error searchFailed s))) as Hsearch.
  { intros q Hout. destruct (searchCity_body_thrown q out s Hout) as [e Hbody].
    by rewrite (resume_search_thrown _ _ _ _ Hbody). }
  assert (thrown forecastRows out ->
          resume ForecastCont out s
          = (inr tt, with_loadingWx false (with_error forecastFailed s))) as Hforecast.
  { intros Hout. destruct (fetchWeather_body_thrown out s Hout) as [e Hbody].
    by rewrite (resume_forecast_thrown _ _ _ Hbody). }
  split_and!; [| | |done|done| | |exact Hsearch|exact Hforecast| | |].
  - intros current text Hq Hout. unfold complete, mbind, M_bind.
    destruct (geocodingUrl (submitted current text)) as [e|url] eqn:Hurl.
    + by rewrite (searchCity_prefix_thrown _ _ _ _ Hq Hurl).
    + rewrite (searchCity_prefix _ _ _ _ Hq Hurl).
      destruct (searchCity_body_thrown (submitted current text) out (searchPending s) Hout)
        as [e Hbody].
      by rewrite (resume_search_thrown _ _ _ _ Hbody).
  - intros current text e Hq Hurl. unfold complete, mbind, M_bind.
    by rewrite (searchCity_prefix_thrown _ _ _ _ Hq Hurl).
  - intros p Hout. unfold complete, mbind, M_bind. rewrite fetchWeather_prefix.
    destruct (fetchWeather_body_thrown out (forecastPending p s) Hout) as [e Hbody].
    by rewrite (resume_forecast_thrown _ _ _ Hbody).
  - intros current text. apply complete_normal, searchCity_normal.
  - intros [p|]; apply complete_normal; [rewrite fetchWeather_prefix|]; by eexists.
  - intros current text url Hq Hurl. by rewrite (searchCity_prefix _ _ _ _ Hq Hurl).
  - intros p. by rewrite fetchWeather_prefix.
  - intros fl n url k Hn Hout settled. subst settled. cbn [step inflight ui].
    rewrite Hn. destruct k as [q|].
    + by rewrite (Hsearch q Hout).
    + by rewrite (Hforecast Hout).
Qed.

(** C9, as the code has it.  [fetchWeather(p)] stores [p] as the selected
    place before it suspends on its request, and resuming never touches the
    place.  A continuation whose request fails writes the forecast message
    and the loading flag and nothing else, in whatever state it is resumed:
    the place and the hour sequence stay as they are at that moment.  So
    when the request settles before any other event, the place is still [p],
    the hour sequence is empty and the message is set. *)
Theorem fetchWeather_place_before_response (p : Place.t) (s : State) :
  (exists url pending,
     fetchWeather (Some p) s = (inr (Awaiting url ForecastCont), pending)
     /\ place pending = Some p)
  /\ (forall out s', place (resume ForecastCont out s').2 = place s')
  /\ (forall out, thrown forecastRows out ->
       let done := (complete (fetchWeather (Some p)) out s).2 in
       place done = Some p /\ hours done = [] /\ error done = forecastFailed)
  /\ (forall out s', thrown forecastRows out ->
       let done := (resume ForecastCont out s').2 in
       place done = place s' /\ hours done = hours s' /\ error done = forecastFailed
       /\ loadingWx done = false)
  /\ (forall out fl n url, thrown forecastRows out ->
       fl !! n = Some (url, ForecastCont) ->
       let settled := step (Settle n out) (mkSystem s fl) in
       place (ui settled) = place s /\ hours (ui settled) = hours s
       /\ error (ui settled) = forecastFailed).
Proof.
  assert (forall out s', thrown forecastRows out ->
            resume ForecastCont out s'
            = (inr tt, with_loadingWx false (with_error forecastFailed s'))) as Hfailed.
  { intros out s' Hout. destruct (fetchWeather_body_thrown out s' Hout) as [e Hbody].
    by rewrite (resume_forecast_thrown _ _ _ Hbody). }
  split_and!.
  - eexists _, _. by rewrite fetchWeather_prefix.
  - intros out s'.
    destruct (fetchWeather_body_cases out s') as [(data & rows & -> & Hrows & _)|[e Hbody]].
    + by rewrite (resume_forecast_ok _ _ _ Hrows).
    + by rewrite (resume_forecast_thrown _ _ _ Hbody).
  - intros out Hout. unfold complete, mbind, M_bind. rewrite fetchWeather_prefix.
    by rewrite (Hfailed _ _ Hout).
  - intros out s' Hout. by rewrite (Hfailed _ _ Hout).
  - intros out fl n url Hout Hn settled. subst settled. cbn [step inflight ui].
    rewrite Hn. by rewrite (Hfailed _ _ Hout).
Qed.

(** *** Search *)

(** C7. When the trimmed input of a search is empty, the action ends at once:
    it waits for no request and every state cell keeps its value; the running
    application is unchanged, with no request added to those in flight. *)
Theorem searchCity_empty_is_noop (current : string) (text : option string)
    (s : State) :
  submitted current text = "" ->
  searchCity current text s = (inr Finished, s)
  /\ (forall sys, ui sys = s -> start (searchCity current text) sys = sys)
  /\ (forall out, complete (searchCity current text) out s = (inr tt, s)).
Proof.
  intros Hq. split_and!.
  - by apply searchCity_empty.
  - intros [u fl] Hu. simpl in Hu. subst u. unfold start. simpl.
    by rewrite (searchCity_empty _ _ _ Hq).
  - intros out. unfold complete, mbind, M_bind. by rewrite (searchCity_empty _ _ _ Hq).
Qed.

(** C10. A success answer whose JSON object has no [results] field ends the
    search normally with an empty candidate list, no error message, and the
    recent list updated with the submitted query. *)
Theorem search_without_results (current : string) (text : option string)
    (s : State) (fields : list (string * JSValue)) (url : string) :
  submitted current text <> "" ->
  geocodingUrl (submitted current text) = inr url ->
  assoc "results" fields = JUndefined ->
  let out := Resolved (mkResponse true (inr (JObj fields))) in
  let done := complete (searchCity current text) out s in
  done.1 = inr tt
  /\ cities done.2 = []
  /\ error done.2 = ""
  /\ errorText done.2 = None
  /\ recent done.2 = nextRecent (submitted current text) (recent s)
  /\ loadingCity done.2 = false.
Proof.
  intros Hq Hurl Hres out done. subst out done.
  unfold complete, mbind, M_bind. rewrite (searchCity_prefix _ _ _ _ Hq Hurl).
  rewrite (resume_search_ok _ _ []); [done|].
  unfold geocodingCities. simpl. by rewrite Hres.
Qed.

(** *** What one event does to the state cells *)

Lemma submit_handler s :
  (current ← gets query; searchCity current None) s = searchCity (query s) None s.
Proof. reflexivity. Qed.

Lemma recent_handler item s :
  (current ← gets query; setQuery item;; searchCity current (Some item)) s
  = searchCity (query s) (Some item) (with_query item s).
Proof. reflexivity. Qed.

Lemma ui_start action sys : ui (start action sys) = (action (ui sys)).2.
Proof. unfold start. by destruct (action (ui sys)) as [[e|[|url k]] s']. Qed.

Lemma searchCity_state current text s :
  (searchCity current text s).2 = s
  \/ (searchCity current text s).2 = searchPending s
  \/ (searchCity current text s).2
     = with_loadingCity false (with_error searchFailed (searchPending s)).
Proof.
  destruct (decide (submitted current text = "")) as [Hq|Hq].
  - left. by rewrite (searchCity_empty _ _ _ Hq).
  - destruct (geocodingUrl (submitted current text)) as [e|url] eqn:Hurl.
    + right; right. by rewrite (searchCity_prefix_thrown _ _ _ _ Hq Hurl).
    + right; left. by rewrite (searchCity_prefix _ _ _ _ Hq Hurl).
Qed.

Lemma pressMode_state value s :
  (pressMode value s).2 = s
  \/ (pressMode value s).2 = with_mode value s
  \/ exists p, (pressMode value s).2 = forecastPending p (with_mode value s).
Proof.
  unfold pressMode, mbind, M_bind, gets. simpl.
  destruct (mode s) eqn:Hm, value; simpl; auto;
    unfold modeEffect, mbind, M_bind, gets; simpl;
    destruct (place s) as [p|]; simpl; eauto.
Qed.

(** The four ways a continuation can end. *)
Lemma resume_state k out s :
  (exists q data found,
      k = SearchCont q /\ out = Resolved (mkResponse true (inr data))
      /\ geocodingCities data = inr found
      /\ (resume k out s).2
         = with_loadingCity false (with_recent (nextRecent q) (with_cities found s)))
  \/ (exists q, k = SearchCont q
       /\ (resume k out s).2 = with_loadingCity false (with_error searchFailed s))
  \/ (exists data rows,
       k = ForecastCont /\ out = Resolved (mkResponse true (inr data))
       /\ forecastRows data = inr rows
       /\ (resume k out s).2 = with_loadingWx false (with_hours rows s))
  \/ (k = ForecastCont
       /\ (resume k out s).2 = with_loadingWx false (with_error forecastFailed s)).
Proof.
  destruct k as [q|].
  - destruct (searchCity_body_cases q out s) as [(data & found & -> & Hfound & _)|[e Hbody]].
    + left. exists q, data, found. by rewrite (resume_search_ok _ _ _ _ Hfound).
    + right; left. exists q. by rewrite (resume_search_thrown _ _ _ _ Hbody).
  - destruct (fetchWeather_body_cases out s) as [(data & rows & -> & Hrows & _)|[e Hbody]].
    + right; right; left. exists data, rows. by rewrite (resume_forecast_ok _ _ _ Hrows).
    + right; right; right. by rewrite (resume_forecast_thrown _ _ _ Hbody).
Qed.

(** *** The recent list *)

Lemma nextRecent_cons q prev :
  nextRecent q prev
  = q :: take 7 (filter (fun x => toLowerCase x ≠ toLowerCase q) prev).
Proof. reflexivity. Qed.

Lemma nextRecent_tail_differs q prev x :
  x ∈ tail (nextRecent q prev) -> toLowerCase x ≠ toLowerCase q.
Proof.
  rewrite nextRecent_cons. simpl.
  intros (i & Hx & _)%elem_of_take.
  apply list_elem_of_lookup_2 in Hx. by apply list_elem_of_filter in Hx as [? _].
Qed.

Lemma nextRecent_tail_sublist q prev : tail (nextRecent q prev) `sublist_of` prev.
Proof.
  rewrite nextRecent_cons. simpl.
  etrans; [apply sublist_take|]. apply sublist_filter.
Qed.

Lemma nextRecent_length q prev : length (nextRecent q prev) <= 8.
Proof. unfold nextRecent. rewrite length_take. lia. Qed.

Lemma nextRecent_distinct q prev :
  distinctIgnoringCase prev -> distinctIgnoringCase (nextRecent q prev).
Proof.
  unfold distinctIgnoringCase. intros Hprev.
  pose proof (nextRecent_tail_sublist q prev) as Hsub.
  pose proof (nextRecent_tail_differs q prev) as Hdiff.
  rewrite nextRecent_cons in *. simpl in *. apply NoDup_cons. split.
  - intros (x & Heq & Hx)%list_elem_of_fmap. by apply (Hdiff x).
  - apply (sublist_NoDup _ (toLowerCase <$> prev)); [done|by apply fmap_sublist].
Qed.

Lemma recent_step ev sys :
  recent (ui (step ev sys)) = recent (ui sys)
  \/ exists q, recent (ui (step ev sys)) = nextRecent q (recent (ui sys)).
Proof.
  destruct ev as [t| |i|value|i|n out]; cbn [step].
  - left. by rewrite ui_start.
  - left. rewrite ui_start, submit_handler.
    by destruct (searchCity_state (query (ui sys)) None (ui sys)) as [->|[->| ->]].
  - destruct (recent (ui sys) !! i) as [item|]; [|by left].
    left. rewrite ui_start, recent_handler.
    by destruct (searchCity_state (query (ui sys)) (Some item) (with_query item (ui sys)))
      as [->|[->| ->]].
  - left. rewrite ui_start.
    by destruct (pressMode_state value (ui sys)) as [->|[->|[p ->]]].
  - destruct (loadingCity (ui sys)); [by left|].
    destruct (cities (ui sys) !! i) as [item|]; [|by left].
    left. by rewrite ui_start, fetchWeather_prefix.
  - destruct (inflight sys !! n) as [[url k]|]; [|by left]. simpl.
    destruct (resume_state k out (ui sys))
      as [(q & data & found & _ & _ & _ & ->)|[(q & _ & ->)|[(data & rows & _ & _ & _ & ->)|[_ ->]]]];
      simpl; eauto.
Qed.

Lemma recent_invariant evs sys :
  distinctIgnoringCase (recent (ui sys)) /\ length (recent (ui sys)) <= 8 ->
  distinctIgnoringCase (recent (ui (run evs sys)))
  /\ length (recent (ui (run evs sys))) <= 8.
Proof.
  revert sys. induction evs as [|ev rest IH]; intros sys Hsys; simpl; [done|].
  apply IH. destruct (recent_step ev sys) as [->|[q ->]]; [done|].
  split; [apply nextRecent_distinct; tauto|apply nextRecent_length].
Qed.

(** C3. When a search for the non-empty trimmed query [q] ends with no error
    message, the recent list becomes [q] followed by the earlier entries that
    differ from [q] up to case, in their earlier order, cut to 8 entries: [q]
    is first, no later entry equals [q] up to case (an entry that was already
    there is moved, not repeated), the entries after [q] are exactly the
    first 7 of the earlier entries that differ from [q] up to case, the
    length is 8 or one more than the number of those entries if that is
    less, and a list without duplicates up to case stays one.  A query that
    is new up to case goes in front of the first 7 earlier entries.  The
    continuation of a search whose body gives candidates updates the list
    in the same way in whatever state it is resumed.  Hence, from a state
    whose recent list has at most 8 entries and no duplicate up to case,
    every run of the application keeps both. *)
Theorem recent_list_update (current : string) (text : option string)
    (s : State) (out : FetchOutcome) :
  let q := submitted current text in
  let done := complete (searchCity current text) out s in
  q <> "" ->
  error done.2 = "" ->
  let next := recent done.2 in
  next = nextRecent q (recent s)
  /\ head next = Some q
  /\ length next <= 8
  /\ (forall x, x ∈ tail next -> toLowerCase x ≠ toLowerCase q)
  /\ length (filter (fun x => toLowerCase x = toLowerCase q) next) = 1
  /\ tail next `sublist_of` recent s
  /\ (distinctIgnoringCase (recent s) -> distinctIgnoringCase next)
  /\ (forall evs sys,
        distinctIgnoringCase (recent (ui sys)) -> length (recent (ui sys)) <= 8 ->
        distinctIgnoringCase (recent (ui (run evs sys)))
        /\ length (recent (ui (run evs sys))) <= 8)
  /\ next = take 8 (q :: filter (fun x => toLowerCase x ≠ toLowerCase q) (recent s))
  /\ tail next = take 7 (filter (fun x => toLowerCase x ≠ toLowerCase q) (recent s))
  /\ length next
     = min 8 (S (length (filter (fun x => toLowerCase x ≠ toLowerCase q) (recent s))))
  /\ (Forall (fun x => toLowerCase x ≠ toLowerCase q) (recent s) ->
      next = q :: take 7 (recent s))
  /\ (forall s' data found,
        geocodingCities data = inr found ->
        recent (resume (SearchCont q) (Resolved (mkResponse true (inr data))) s').2
        = take 8 (q :: filter (fun x => toLowerCase x ≠ toLowerCase q) (recent s'))).
Proof.
  intros q done Hq Herr next.
  assert (next = nextRecent q (recent s)) as Hnext.
  { subst next done. revert Herr. unfold complete, mbind, M_bind.
    destruct (geocodingUrl (submitted current text)) as [e|url] eqn:Hurl.
    - by rewrite (searchCity_prefix_thrown _ _ _ _ Hq Hurl).
    - rewrite (searchCity_prefix _ _ _ _ Hq Hurl).
      destruct (resume_state (SearchCont (submitted current text)) out (searchPending s))
        as [(q' & data & found & [= <-] & _ & _ & ->)|[(q' & _ & ->)
           |[(data & rows & [=] & _)|[[=] _]]]]; [done|].
      simpl. discriminate. }
  rewrite Hnext. split_and!; try done.
  - apply nextRecent_length.
  - apply nextRecent_tail_differs.
  - rewrite nextRecent_cons, filter_cons_True by done. simpl. f_equal.
    apply length_zero_iff_nil, elem_of_nil_inv. intros x [Hx Hin]%list_elem_of_filter.
    by apply (nextRecent_tail_differs q (recent s) x).
  - apply nextRecent_tail_sublist.
  - apply nextRecent_distinct.
  - intros evs sys Hd Hl. by apply recent_invariant.
  - unfold nextRecent. rewrite length_take. simpl. lia.
  - intros Hnew. by rewrite nextRecent_cons, filter_all.
  - intros s' data found Hfound. by rewrite (resume_search_ok _ _ _ _ Hfound).
Qed.

(** *** Rendering of the precipitation value *)


(** *** Candidates of a search *)

Lemma toCity_fields r c :
  toCity r = inr c ->
  Place.id c = ToString (js_get_opt r "id")
  /\ Place.name c = js_get_opt r "name"
  /\ Place.country c = js_get_opt r "country"
  /\ Place.lat c = js_get_opt r "latitude"
  /\ Place.lon c = js_get_opt r "longitude".
Proof.
  unfold toCity, template, js_get_opt. destruct r; simpl; try done;
    try (by intros [= <-]).
  unfold mbind, result_bind. destruct (templateThrows (assoc "id" fields)); [done|].
  by intros [= <-].
Qed.

Lemma coordinates_numeric (results : list JSValue) (found : list Place.t) :
  Forall2 (fun r c => Place.lat c = js_get_opt r "latitude"
                      /\ Place.lon c = js_get_opt r "longitude") results found ->
  Forall (fun r => isNumber (js_get_opt r "latitude")
                   /\ isNumber (js_get_opt r "longitude")) results ->
  Forall (fun c => isNumber (Place.lat c) /\ isNumber (Place.lon c)) found.
Proof.
  induction 1 as [|r c rs cs [Hlat Hlon] _ IH]; [constructor|].
  intros [Hr Hrs]%Forall_cons. constructor; [|by apply IH].
  by rewrite Hlat, Hlon.
Qed.

(** C5, as the code has it. When a search for the non-empty trimmed query
    [q] ends with no error message, the request went to the geocoding
    endpoint with the encoded [q], count 5, language en and format json, and
    was answered with a success status and a JSON body whose [results] is an
    array (the empty one when the field is missing); the candidate list has
    one place per entry of that array, in the same order, so at most 5 when
    the array has at most 5 entries; each place carries the entry's
    [latitude] and [longitude] unchanged, so numbers when the entry's are. *)
Theorem search_candidates (current : string) (text : option string)
    (s : State) (out : FetchOutcome) :
  let q := submitted current text in
  let done := complete (searchCity current text) out s in
  q <> "" ->
  error done.2 = "" ->
  exists name data results,
    encodeURIComponent q = inr name
    /\ (searchCity current text s).1
       = inr (Awaiting ("https://geocoding-api.open-meteo.com/v1/search?name=" ++ name
                        ++ "&count=5&language=en&format=json") (SearchCont q))
    /\ out = Resolved (mkResponse true (inr data))
    /\ js_or (js_get_opt data "results") (JArr []) = JArr results
    /\ length (cities done.2) = length results
    /\ (length results <= 5 -> length (cities done.2) <= 5)
    /\ Forall2 (fun r c => Place.lat c = js_get_opt r "latitude"
                           /\ Place.lon c = js_get_opt r "longitude")
               results (cities done.2)
    /\ (Forall (fun r => isNumber (js_get_opt r "latitude")
                         /\ isNumber (js_get_opt r "longitude")) results ->
        Forall (fun c => isNumber (Place.lat c) /\ isNumber (Place.lon c))
               (cities done.2)).
Proof.
  intros q done Hq. subst done. unfold complete, mbind, M_bind.
  destruct (geocodingUrl (submitted current text)) as [e|url] eqn:Hurl.
  { by rewrite (searchCity_prefix_thrown _ _ _ _ Hq Hurl). }
  rewrite (searchCity_prefix _ _ _ _ Hq Hurl).
  destruct (resume_state (SearchCont (submitted current text)) out (searchPending s))
    as [(q' & data & found & _ & -> & Hfound & ->)|[(q' & _ & ->)
       |[(data & rows & [=] & _)|[[=] _]]]]; [|simpl; discriminate].
  intros _. simpl.
  unfold geocodingUrl in Hurl. fold q in Hurl |- *.
  destruct (encodeURIComponent q) as [e|name] eqn:Hname; [done|].
  injection Hurl as <-.
  unfold geocodingCities in Hfound.
  destruct (js_get data "results") as [e|res] eqn:Hres; [done|].
  simpl in Hfound. destruct (js_map_inr _ _ _ Hfound) as [results Harr].
  rewrite Harr in Hfound. simpl in Hfound. apply map_from_inr in Hfound.
  assert (Forall2 (fun r c => Place.lat c = js_get_opt r "latitude"
                              /\ Place.lon c = js_get_opt r "longitude") results found)
    as Hcoords.
  { eapply Forall2_impl; [exact Hfound|]. intros r c Hc.
    apply toCity_fields in Hc. tauto. }
  exists name, data, results. split_and!; try done.
  - unfold js_get_opt. by rewrite Hres.
  - symmetry. by eapply Forall2_length.
  - intros Hle. by rewrite <- (Forall2_length _ _ _ Hfound).
  - by apply coordinates_numeric.
Qed.

(** *** The hour sequence over a run *)



Lemma pressMode_switch (s : State) (p : Place.t) (value : DisplayMode) :
  place s = Some p ->
  mode s <> value ->
  pressMode value s
  = (inr (Awaiting (forecastUrl p value) ForecastCont),
     forecastPending p (with_mode value s)).
Proof.
  intros Hp Hm. unfold pressMode, mbind, M_bind, gets. simpl.
  destruct (mode s), value; try done;
    unfold modeEffect, mbind, M_bind, gets; simpl; by rewrite Hp.
Qed.


End Properties.

(** ** Further properties *)

Section Further.

Context `{Builtins}.

(** *** Every event is one of the transitions *)

(** Splits a transition into its cases and names what each case knows. *)
Ltac transition_cases Hab :=
  destruct Hab as [ |t|s0 q url Hs0 Hq Hurl|s0 Hs0|value Hnoplace|s0 p Hs0
                  |n url q data found Hn Hfound|n url q Hn
                  |n url data rows Hn Hrows|n url Hn];
  try match goal with
      | Hs : _ = ui _ \/ _ |- _ => destruct Hs as [->|(item & Hitem & ->)]
      | Hs : (_ = ui _ /\ _) \/ _ |- _ =>
          destruct Hs as [(-> & Hcandidate & Hidle)|(value & Hplace & Hmode & ->)]
      end.

Lemma step_transition ev sys : Transition sys (step ev sys).
Proof.
  destruct sys as [s fl]. destruct ev as [t| |i|value|i|n out]; cbn [step ui inflight].
  - apply (T_text (mkSystem s fl)).
  - unfold start. cbn [ui inflight]. rewrite submit_handler.
    destruct (decide (submitted (query s) None = "")) as [Hq|Hq].
    + rewrite (searchCity_empty _ _ _ Hq). constructor.
    + destruct (geocodingUrl (submitted (query s) None)) as [e|url] eqn:Hurl.
      * rewrite (searchCity_prefix_thrown _ _ _ _ Hq Hurl).
        apply (T_search_unsent (mkSystem s fl)). by left.
      * rewrite (searchCity_prefix _ _ _ _ Hq Hurl).
        apply (T_search (mkSystem s fl)); auto.
  - destruct (recent s !! i) as [item|] eqn:Hitem; [|constructor].
    apply list_elem_of_lookup_2 in Hitem.
    unfold start. cbn [ui inflight]. rewrite recent_handler.
    destruct (decide (submitted (query s) (Some item) = "")) as [Hq|Hq].
    + rewrite (searchCity_empty _ _ _ Hq). apply (T_text (mkSystem s fl)).
    + destruct (geocodingUrl (submitted (query s) (Some item))) as [e|url] eqn:Hurl.
      * rewrite (searchCity_prefix_thrown _ _ _ _ Hq Hurl).
        apply (T_search_unsent (mkSystem s fl)). right. eauto.
      * rewrite (searchCity_prefix _ _ _ _ Hq Hurl).
        apply (T_search (mkSystem s fl)); eauto.
  - unfold start. cbn [ui inflight].
    destruct (decide (mode s = value)) as [Hm|Hm].
    + assert (pressMode value s = (inr Finished, s)) as ->; [|constructor].
      unfold pressMode, mbind, M_bind, gets. simpl. rewrite Hm. by destruct value.
    + destruct (place s) as [p|] eqn:Hp.
      * rewrite (pressMode_switch _ _ _ Hp Hm).
        apply (T_forecast (mkSystem s fl) (with_mode value s) p). right. eauto.
      * assert (pressMode value s = (inr Finished, with_mode value s)) as ->;
          [|by apply (T_mode (mkSystem s fl))].
        unfold pressMode, mbind, M_bind, gets. simpl.
        destruct (mode s), value; try done;
          unfold modeEffect, mbind, M_bind, gets; simpl; by rewrite Hp.
  - destruct (loadingCity s) eqn:Hload; [constructor|].
    destruct (cities s !! i) as [item|] eqn:Hitem; [|constructor].
    apply list_elem_of_lookup_2 in Hitem.
    unfold start. cbn [ui inflight]. rewrite fetchWeather_prefix.
    apply (T_forecast (mkSystem s fl) s item). by left.
  - destruct (fl !! n) as [[url k]|] eqn:Hn; [|constructor].
    destruct (resume_state k out s)
      as [(q & data & found & -> & _ & Hfound & ->)|[(q & -> & ->)
         |[(data & rows & -> & _ & Hrows & ->)|[-> ->]]]].
    + by apply (T_found (mkSystem s fl) n url q data found).
    + by apply (T_search_failed (mkSystem s fl) n url q).
    + by apply (T_rows (mkSystem s fl) n url data rows).
    + by apply (T_forecast_failed (mkSystem s fl) n url).
Qed.

(** A property that holds at [sys] and survives every transition holds at
    every state reached from [sys]. *)
Lemma run_invariant (P : System -> Prop) :
  (forall a b, P a -> Transition a b -> P b) ->
  forall evs sys, P sys -> P (run evs sys).
Proof.
  intros Hstep evs. induction evs as [|ev rest IH]; intros sys Hsys; simpl; [done|].
  apply IH. eapply Hstep; [exact Hsys|apply step_transition].
Qed.

(** *** Requests in flight and the two spinners *)

Lemma existsb_lookup {A} (f : A -> bool) (l : list A) n x :
  l !! n = Some x -> f x = true -> existsb f l = true.
Proof.
  intros Hn Hx. apply existsb_exists. exists x. split; [|done].
  apply list_elem_of_In. by eapply list_elem_of_lookup_2.
Qed.

Lemma existsb_delete {A} (f : A -> bool) (l : list A) n :
  existsb f (delete n l) = true -> existsb f l = true.
Proof.
  intros (x & Hx & Hfx)%existsb_exists. apply existsb_exists. exists x. split; [|done].
  apply list_elem_of_In. apply list_elem_of_In in Hx.
  eapply elem_of_sublist; [exact Hx|apply sublist_delete].
Qed.

Lemma existsb_delete_other {A} (f : A -> bool) (l : list A) n x :
  l !! n = Some x -> f x = false -> existsb f (delete n l) = existsb f l.
Proof.
  revert n. induction l as [|y l IH]; intros [|n] Hn Hx; simpl in *; try done.
  - injection Hn as ->. by rewrite Hx.
  - by rewrite (IH n Hn Hx).
Qed.

(** X1. In every state the application reaches from its initial state, a
    spinner is on only while a request of its kind is in flight: with no
    search in flight [loadingCity] is off, with no forecast request in
    flight [loadingWx] is off. *)
Theorem spinners_need_a_request (evs : list Event) :
  let sys := run evs (mkSystem initial []) in
  (existsb isSearch (inflight sys) = false -> loadingCity (ui sys) = false)
  /\ (existsb isForecast (inflight sys) = false -> loadingWx (ui sys) = false).
Proof.
  apply (run_invariant (fun sys =>
    (existsb isSearch (inflight sys) = false -> loadingCity (ui sys) = false)
    /\ (existsb isForecast (inflight sys) = false -> loadingWx (ui sys) = false)));
    [|done].
  intros a b [Hcity Hwx] Hab.
  transition_cases Hab; cbn [ui inflight]; simpl;
    rewrite ?existsb_app; simpl; rewrite ?orb_true_r, ?orb_false_r;
    try rewrite (existsb_delete_other isSearch _ _ _ Hn eq_refl);
    try rewrite (existsb_delete_other isForecast _ _ _ Hn eq_refl);
    split; auto; done.
Qed.

(** X2. In every state the application reaches from its initial state, a
    spinner never stands in for data: while [loadingCity] is on the candidate
    list is empty, and while [loadingWx] is on the hour sequence is empty. *)
Theorem spinners_hide_nothing (evs : list Event) :
  let sys := run evs (mkSystem initial []) in
  (loadingCity (ui sys) = true -> cities (ui sys) = [])
  /\ (loadingWx (ui sys) = true -> hours (ui sys) = []).
Proof.
  apply (run_invariant (fun sys =>
    (loadingCity (ui sys) = true -> cities (ui sys) = [])
    /\ (loadingWx (ui sys) = true -> hours (ui sys) = []))); [|done].
  intros a b [Hcity Hwx] Hab.
  transition_cases Hab; cbn [ui inflight]; simpl; split; auto; done.
Qed.

(** X3. The error cell only ever holds nothing or one of the two fixed
    messages: from a state where that is so, every run keeps it so. *)
Theorem error_is_one_of_two (evs : list Event) (sys : System) :
  error (ui sys) ∈ [""; searchFailed; forecastFailed] ->
  error (ui (run evs sys)) ∈ [""; searchFailed; forecastFailed].
Proof.
  apply (run_invariant (fun sys => error (ui sys) ∈ [""; searchFailed; forecastFailed])).
  intros a b Ha Hab.
  transition_cases Hab; cbn [ui inflight]; simpl; try done;
    rewrite !elem_of_cons; auto.
Qed.

(** X4. A selected place is never unselected: once [place] holds a place,
    every later state holds one.  And in every state reached from the initial
    state, as long as no place is selected the hour sequence is empty and no
    forecast request is in flight, so the forecast card is absent exactly
    until the first candidate is pressed. *)
Theorem place_stays_selected (evs : list Event) :
  (forall sys, is_Some (place (ui sys)) -> is_Some (place (ui (run evs sys))))
  /\ (let sys := run evs (mkSystem initial []) in
      place (ui sys) = None ->
      hours (ui sys) = []
      /\ existsb isForecast (inflight sys) = false
      /\ forecastCard (ui sys) = NoCard).
Proof.
  split.
  - intros sys. revert evs sys.
    apply (run_invariant (fun sys => is_Some (place (ui sys)))).
    intros a b Ha Hab.
    transition_cases Hab; cbn [ui inflight]; simpl; done.
  - apply (run_invariant (fun sys =>
      place (ui sys) = None ->
      hours (ui sys) = [] /\ existsb isForecast (inflight sys) = false
      /\ forecastCard (ui sys) = NoCard)); [|done].
    intros a b Ha Hab.
    transition_cases Hab; cbn [ui inflight]; simpl; try done; intros Hnone;
      destruct (Ha Hnone) as (Hhours & Hflight & Hcard);
      unfold forecastCard in *; simpl; rewrite ?Hnone;
      try rewrite (existsb_delete_other isForecast _ _ _ Hn eq_refl);
      rewrite ?existsb_app; simpl; rewrite ?orb_false_r; try done.
    + by rewrite (existsb_lookup isForecast _ _ _ Hn eq_refl) in Hflight.
    + by rewrite (existsb_lookup isForecast _ _ _ Hn eq_refl) in Hflight.
Qed.

(** X5. Whatever answers arrive and in whatever order, the hour sequence
    never grows beyond 24 samples: from a state with at most 24, every run
    keeps at most 24, and so does the list the forecast card shows. *)
Theorem hours_at_most_24 (evs : list Event) (sys : System) :
  length (hours (ui sys)) <= 24 ->
  length (hours (ui (run evs sys))) <= 24
  /\ (forall rows, forecastCard (ui (run evs sys)) = Rows rows -> length rows <= 24).
Proof.
  intros Hsys.
  assert (length (hours (ui (run evs sys))) <= 24) as Hrun.
  { revert evs sys Hsys. apply (run_invariant (fun sys => length (hours (ui sys)) <= 24)).
    intros a b Ha Hab.
    transition_cases Hab; cbn [ui inflight]; simpl; try done; try lia.
    destruct (forecastRows_inr _ _ Hrows) as [ts Hts].
    rewrite (forecastRows_array _ _ Hts) in Hrows. injection Hrows as <-.
    rewrite length_imap, length_take. lia. }
  split; [done|]. intros rows. unfold forecastCard.
  destruct (place _); [|done]. destruct (loadingWx _); [done|].
  intros [= <-]. by rewrite length_map.
Qed.

(** X6. In every state the application reaches from its initial state, the
    recent list is not empty and holds no empty string, and neither does a
    search in flight carry one: the recent chips are always shown, and
    pressing a chip searches for the text of that chip, whatever the text
    box holds. *)
Theorem recent_chips_always_shown (evs : list Event) :
  let sys := run evs (mkSystem initial []) in
  recentChips (ui sys) = Some (recent (ui sys))
  /\ ("" ∉ recent (ui sys))
  /\ (forall url q, (url, SearchCont q) ∈ inflight sys -> q <> "")
  /\ (forall current i item, recent (ui sys) !! i = Some item ->
        submitted current (Some item) = trim item).
Proof.
  assert (forall sys,
             recent (ui sys) <> [] /\ ("" ∉ recent (ui sys))
             /\ (forall url q, (url, SearchCont q) ∈ inflight sys -> q <> "") ->
             recent (ui (run evs sys)) <> [] /\ ("" ∉ recent (ui (run evs sys)))
             /\ (forall url q, (url, SearchCont q) ∈ inflight (run evs sys) -> q <> ""))
    as Hinv.
  { intros sys. revert evs sys.
    apply (run_invariant (fun sys =>
      recent (ui sys) <> [] /\ ("" ∉ recent (ui sys))
      /\ (forall url q, (url, SearchCont q) ∈ inflight sys -> q <> ""))).
    intros a b (Hne & Hempty & Hflight) Hab.
    transition_cases Hab; cbn [ui inflight]; simpl; try done;
      try (split_and!; [done|done|];
           intros url' q' Hin;
           first [apply elem_of_app in Hin as [Hin|Hin%list_elem_of_singleton];
                  [by eapply Hflight|congruence]
                 |eapply Hflight, elem_of_sublist; [exact Hin|apply sublist_delete]]).
    split_and!.
    - by rewrite nextRecent_cons.
    - rewrite nextRecent_cons. apply not_elem_of_cons. split.
      + intros <-. eapply Hflight; [|done]. by eapply list_elem_of_lookup_2.
      + intros Hin. apply Hempty.
        eapply elem_of_sublist; [exact Hin|apply (nextRecent_tail_sublist q)].
    - intros url' q' Hin. eapply Hflight, elem_of_sublist; [exact Hin|apply sublist_delete]. }
  intros sys. subst sys.
  destruct (Hinv (mkSystem initial [])) as (Hne & Hempty & Hflight).
  { simpl. split_and!; [done| |intros url q Hin; by apply elem_of_nil in Hin].
    rewrite !not_elem_of_cons. split_and!; try done. apply not_elem_of_nil. }
  split_and!; try done.
  - unfold recentChips. by destruct (recent _).
  - intros current i item Hitem. unfold submitted, text_or_query.
    destruct (String.eqb_spec item "") as [->|_]; [|done].
    exfalso. apply Hempty. by eapply list_elem_of_lookup_2.
Qed.

(** *** When an action succeeds *)

Lemma hourlySeries_array data field ts :
  hourlySeries data field = JArr ts
  <-> (truthy (js_get_opt (js_get_opt data "hourly") field) = false /\ ts = [])
      \/ js_get_opt (js_get_opt data "hourly") field = JArr ts.
Proof.
  unfold hourlySeries, js_or.
  destruct (truthy (js_get_opt (js_get_opt data "hourly") field)) eqn:Ht; split.
  - auto.
  - by intros [[? _]|?].
  - intros [= <-]. auto.
  - intros [[_ ->]|Harr]; [done|]. by rewrite Harr in Ht.
Qed.

(** X7. The [try] block of a forecast fetch runs to its end exactly when the
    request is answered with a success status and a body that parses and
    whose [hourly.time] is an array or is missing (or otherwise falsy).
    Resumed in whatever state, the continuation then stores the rows and
    turns the spinner off, leaving the error cell as it is; in every other
    case it stores the forecast message and turns the spinner off.  So a
    fetch whose request settles before any other event ends with no error
    message exactly in the first case.  A body without a time series, be it
    [null], a number or an object without [hourly], is a success with an
    empty hour sequence, not an error. *)
Theorem forecast_succeeds_iff (p : Place.t) (s : State) (out : FetchOutcome) :
  let succeeds :=
    exists data,
      out = Resolved (mkResponse true (inr data))
      /\ (truthy (js_get_opt (js_get_opt data "hourly") "time") = false
          \/ exists ts, js_get_opt (js_get_opt data "hourly") "time" = JArr ts) in
  (forall s', (fetchWeather_body out s').1 = inr tt <-> succeeds)
  /\ (forall s', succeeds ->
        exists rows, length rows <= 24
          /\ resume ForecastCont out s'
             = (inr tt, mkState (query s') (recent s') (mode s') (cities s')
                                (loadingCity s') false (error s') (place s') rows
                                (keyboardDismissed s')))
  /\ (forall s', ~ succeeds ->
        resume ForecastCont out s'
        = (inr tt, mkState (query s') (recent s') (mode s') (cities s')
                           (loadingCity s') false forecastFailed (place s') (hours s')
                           (keyboardDismissed s')))
  /\ (error (complete (fetchWeather (Some p)) out s).2 = "" <-> succeeds)
  /\ (forall data,
        truthy (js_get_opt (js_get_opt data "hourly") "time") = false ->
        complete (fetchWeather (Some p)) (Resolved (mkResponse true (inr data))) s
        = (inr tt, mkState (query s) (recent s) (mode s) (cities s) (loadingCity s) false
                           "" (Some p) [] (keyboardDismissed s))).
Proof.
  intros succeeds.
  assert (forall s',
            (exists data rows, out = Resolved (mkResponse true (inr data))
                               /\ forecastRows data = inr rows
                               /\ fetchWeather_body out s' = (inr tt, with_hours rows s')
                               /\ succeeds)
            \/ ((exists e, fetchWeather_body out s' = (inl e, s')) /\ ~ succeeds)) as Hcases.
  { intros s'.
    destruct (fetchWeather_body_cases out s') as [(data & rows & -> & Hrows & Hbody)|[e Hbody]].
    - left. exists data, rows. split_and!; try done. exists data. split; [done|].
      destruct (forecastRows_inr _ _ Hrows) as [ts Hts].
      apply hourlySeries_array in Hts as [[? _]|?]; eauto.
    - right. split; [eauto|]. intros (data & -> & Htime).
      assert (exists ts, hourlySeries data "time" = JArr ts) as [ts Hts].
      { destruct Htime as [Hmissing|[ts Hts]]; eexists; apply hourlySeries_array; eauto. }
      pose proof (forecastRows_array _ _ Hts) as Hrows.
      revert Hbody. unfold fetchWeather_body, mbind, M_bind, lift. simpl.
      by rewrite Hrows. }
  split_and!.
  - intros s'. destruct (Hcases s') as [(data & rows & _ & _ & -> & Hyes)|[[e ->] Hno]];
      simpl; split; done.
  - intros s' Hyes.
    destruct (Hcases s') as [(data & rows & -> & Hrows & _ & _)|[_ Hno]]; [|done].
    exists rows. rewrite (resume_forecast_ok _ _ _ Hrows). split; [|done].
    destruct (forecastRows_inr _ _ Hrows) as [ts Hts].
    rewrite (forecastRows_array _ _ Hts) in Hrows. injection Hrows as <-.
    rewrite length_imap, length_take. lia.
  - intros s' Hno.
    destruct (Hcases s') as [(data & rows & _ & _ & _ & Hyes)|[[e Hbody] _]]; [done|].
    by rewrite (resume_forecast_thrown _ _ _ Hbody).
  - unfold complete, mbind, M_bind. rewrite fetchWeather_prefix.
    destruct (Hcases (forecastPending p s))
      as [(data & rows & -> & Hrows & _ & Hyes)|[[e Hbody] Hno]].
    + by rewrite (resume_forecast_ok _ _ _ Hrows).
    + by rewrite (resume_forecast_thrown _ _ _ Hbody).
  - intros data Hmissing. unfold complete, mbind, M_bind. rewrite fetchWeather_prefix.
    rewrite (resume_forecast_ok _ []); [done|].
    rewrite (forecastRows_array data []); [done|].
    apply hourlySeries_array. by left.
Qed.

Lemma toCity_iff r c :
  toCity r = inr c
  <-> nullish r = false /\ templateThrows (js_get_opt r "id") = false /\ c = cityOf r.
Proof.
  unfold toCity, template, cityOf, js_get_opt.
  destruct r; simpl; try (split; [done|by intros (? & _)]);
    try (split; [by intros [= <-]|by intros (_ & _ & ->)]).
  unfold mbind, result_bind. destruct (templateThrows (assoc "id" fields)).
  - split; [done|by intros (_ & ? & _)].
  - split; [by intros [= <-]|by intros (_ & _ & ->)].
Qed.

Lemma map_from_cityOf (results : list JSValue) (n : nat) :
  Forall usable results ->
  map_from (fun _ r => toCity r) n results = inr (cityOf <$> results).
Proof.
  revert n. induction results as [|r rest IH]; intros n Hall; simpl; [done|].
  apply Forall_cons in Hall as [[Hr Hid] Hrest].
  assert (toCity r = inr (cityOf r)) as -> by by apply toCity_iff.
  unfold mbind, mret, result_bind, result_ret. by rewrite (IH (S n) Hrest).
Qed.

Lemma geocodingCities_iff data found :
  geocodingCities data = inr found
  <-> nullish data = false
      /\ exists results,
           js_or (js_get_opt data "results") (JArr []) = JArr results
           /\ Forall usable results
           /\ found = cityOf <$> results.
Proof.
  unfold geocodingCities, js_get_opt. split.
  - destruct (js_get data "results") as [e|res] eqn:Hres; [done|]. simpl.
    intros Hfound. split; [by destruct data|].
    destruct (js_map_inr _ _ _ Hfound) as [results Harr]. exists results.
    rewrite Harr in Hfound |- *. simpl in Hfound. apply map_from_inr in Hfound.
    split; [done|]. clear Harr Hres. induction Hfound as [|r c rs cs Hc _ [IH1 IH2]].
    + by split.
    + apply toCity_iff in Hc as (Hr & Hid & ->).
      split; [by constructor|]. simpl. by f_equal.
  - intros (Hdata & results & Harr & Hall & ->).
    destruct (js_get data "results") as [e|res] eqn:Hres; [by destruct data|].
    simpl. rewrite Harr. simpl. by apply map_from_cityOf.
Qed.

(** X8. The [try] block of a search runs to its end exactly when the request
    is answered with a success status and the body parses to a value other
    than [null] whose [results] is missing (or otherwise falsy) or is an
    array in which no entry is [null] and no entry has an [id] whose
    conversion to text throws.  Resumed in whatever state, the continuation
    then stores the candidates of all entries, in order, updates the recent
    list and turns the spinner off, leaving the error cell as it is; in
    every other case it stores the search message and turns the spinner off,
    so one bad entry or a [null] body fails the whole search.  A search for
    a non-empty query whose request settles before any other event ends with
    no error message exactly when the query can be encoded and the first
    case holds. *)
Theorem search_succeeds_iff (q : string) (out : FetchOutcome) :
  let succeeds :=
    exists data results,
      out = Resolved (mkResponse true (inr data))
      /\ nullish data = false
      /\ js_or (js_get_opt data "results") (JArr []) = JArr results
      /\ Forall (fun r => nullish r = false
                          /\ templateThrows (js_get_opt r "id") = false) results in
  (forall s', (searchCity_body q out s').1 = inr tt <-> succeeds)
  /\ (forall s' data results,
        out = Resolved (mkResponse true (inr data)) ->
        nullish data = false ->
        js_or (js_get_opt data "results") (JArr []) = JArr results ->
        Forall (fun r => nullish r = false
                         /\ templateThrows (js_get_opt r "id") = false) results ->
        resume (SearchCont q) out s'
        = (inr tt, mkState (query s')
                           (take 8 (q :: filter (fun x => toLowerCase x ≠ toLowerCase q)
                                                (recent s')))
                           (mode s') (cityOf <$> results) false (loadingWx s') (error s')
                           (place s') (hours s') (keyboardDismissed s')))
  /\ (forall s', ~ succeeds ->
        resume (SearchCont q) out s'
        = (inr tt, mkState (query s') (recent s') (mode s') (cities s') false
                           (loadingWx s') searchFailed (place s') (hours s')
                           (keyboardDismissed s')))
  /\ (forall current text s,
        submitted current text = q -> q <> "" ->
        (error (complete (searchCity current text) out s).2 = ""
         <-> (exists name, encodeURIComponent q = inr name) /\ succeeds)).
Proof.
  intros succeeds.
  assert (forall data found, out = Resolved (mkResponse true (inr data)) ->
            geocodingCities data = inr found -> succeeds) as Hyes.
  { intros data found -> (Hdata & results & Harr & Hall & _)%geocodingCities_iff.
    by exists data, results. }
  assert (forall data results,
            nullish data = false ->
            js_or (js_get_opt data "results") (JArr []) = JArr results ->
            Forall usable results ->
            geocodingCities data = inr (cityOf <$> results)) as Hfound.
  { intros data results Hdata Harr Hall. apply geocodingCities_iff. eauto. }
  assert (forall s', (exists e, searchCity_body q out s' = (inl e, s')) -> ~ succeeds)
    as Hno.
  { intros s' [e Hbody] (data & results & -> & Hdata & Harr & Hall).
    revert Hbody. unfold searchCity_body, mbind, M_bind, lift. simpl.
    by rewrite (Hfound _ _ Hdata Harr Hall). }
  split_and!.
  - intros s'.
    destruct (searchCity_body_cases q out s') as [(data & found & Hout & Hf & ->)|Hbody].
    + split; [|done]. intros _. by eapply Hyes.
    + split; [by destruct Hbody as [e ->]|]. intros Hs. by destruct (Hno s' Hbody).
  - intros s' data results -> Hdata Harr Hall.
    by rewrite (resume_search_ok _ _ _ _ (Hfound _ _ Hdata Harr Hall)).
  - intros s' Hnot.
    destruct (searchCity_body_cases q out s') as [(data & found & Hout & Hf & _)|[e Hbody]].
    + destruct Hnot. by eapply Hyes.
    + by rewrite (resume_search_thrown _ _ _ _ Hbody).
  - intros current text s <- Hq. unfold complete, mbind, M_bind.
    destruct (geocodingUrl (submitted current text)) as [e|url] eqn:Hurl.
    { rewrite (searchCity_prefix_thrown _ _ _ _ Hq Hurl). simpl. split; [done|].
      intros [[name Hname] _]. unfold geocodingUrl in Hurl. by rewrite Hname in Hurl. }
    rewrite (searchCity_prefix _ _ _ _ Hq Hurl).
    assert (exists name, encodeURIComponent (submitted current text) = inr name) as Hname.
    { unfold geocodingUrl in Hurl.
      destruct (encodeURIComponent (submitted current text)); [done|eauto]. }
    destruct (searchCity_body_cases (submitted current text) out (searchPending s))
      as [(data & found & Hout & Hf & _)|[e Hbody]].
    + subst out. rewrite (resume_search_ok _ _ _ _ Hf). simpl.
      split; [|done]. intros _. split; [done|]. by eapply Hyes.
    + rewrite (resume_search_thrown _ _ _ _ Hbody). simpl. split; [done|].
      intros [_ Hs]. destruct (Hno (searchPending s)); eauto.
Qed.

(** *** What an action leaves alone *)

(** X9. The two actions share the error cell and nothing else.  Whatever a
    search is called with and however its request ends, it leaves the text
    box, the mode, the selected place, the hour sequence and the forecast
    spinner as they were; whatever a forecast fetch is called with and
    however its request ends, it leaves the text box, the recent list, the
    candidate list, the search spinner, the mode and the keyboard as they
    were.  The same holds for a continuation resumed in any state. *)
Theorem actions_share_only_error (s : State) (out : FetchOutcome) :
  (forall current text,
     let done := (complete (searchCity current text) out s).2 in
     query done = query s /\ mode done = mode s /\ place done = place s
     /\ hours done = hours s /\ loadingWx done = loadingWx s)
  /\ (forall p,
     let done := (complete (fetchWeather p) out s).2 in
     query done = query s /\ recent done = recent s /\ cities done = cities s
     /\ loadingCity done = loadingCity s /\ mode done = mode s
     /\ keyboardDismissed done = keyboardDismissed s)
  /\ (forall q,
     let done := (resume (SearchCont q) out s).2 in
     query done = query s /\ mode done = mode s /\ place done = place s
     /\ hours done = hours s /\ loadingWx done = loadingWx s
     /\ keyboardDismissed done = keyboardDismissed s)
  /\ (let done := (resume ForecastCont out s).2 in
      query done = query s /\ recent done = recent s /\ cities done = cities s
      /\ loadingCity done = loadingCity s /\ mode done = mode s
      /\ place done = place s /\ keyboardDismissed done = keyboardDismissed s).
Proof.
  assert (forall q s', let done := (resume (SearchCont q) out s').2 in
            query done = query s' /\ mode done = mode s' /\ place done = place s'
            /\ hours done = hours s' /\ loadingWx done = loadingWx s'
            /\ keyboardDismissed done = keyboardDismissed s') as Hsearch.
  { intros q s'.
    destruct (resume_state (SearchCont q) out s')
      as [(q' & data & found & _ & _ & _ & ->)|[(q' & _ & ->)
         |[(data & rows & [=] & _)|[[=] _]]]]; done. }
  assert (forall s', let done := (resume ForecastCont out s').2 in
            query done = query s' /\ recent done = recent s' /\ cities done = cities s'
            /\ loadingCity done = loadingCity s' /\ mode done = mode s'
            /\ place done = place s'
            /\ keyboardDismissed done = keyboardDismissed s') as Hforecast.
  { intros s'.
    destruct (resume_state ForecastCont out s')
      as [(q' & data & found & [=] & _)|[(q' & [=] & _)
         |[(data & rows & _ & _ & _ & ->)|[_ ->]]]]; done. }
  split_and!; [| |exact (fun q => Hsearch q s)|exact (Hforecast s)].
  - intros current text. unfold complete, mbind, M_bind.
    destruct (decide (submitted current text = "")) as [Hq|Hq].
    { by rewrite (searchCity_empty _ _ _ Hq). }
    destruct (geocodingUrl (submitted current text)) as [e|url] eqn:Hurl.
    { by rewrite (searchCity_prefix_thrown _ _ _ _ Hq Hurl). }
    rewrite (searchCity_prefix _ _ _ _ Hq Hurl).
    destruct (Hsearch (submitted current text) (searchPending s))
      as (-> & -> & -> & -> & -> & _). done.
  - intros [p|]; [|done]. unfold complete, mbind, M_bind. rewrite fetchWeather_prefix.
    destruct (Hforecast (forecastPending p s)) as (-> & -> & -> & -> & -> & _ & ->). done.
Qed.

(** *** More on the recent list *)

Lemma nextRecent_tail_length q prev : length (tail (nextRecent q prev)) <= 7.
Proof. rewrite nextRecent_cons. simpl. rewrite length_take. lia. Qed.

(** X10. Submitting again a query that equals the last one up to case only
    replaces the spelling at the front; the rest of the list keeps its
    entries and their order.  Submitting the very same query twice changes
    nothing the second time. *)
Theorem recent_same_query_again (q q' : string) (prev : list string) :
  toLowerCase q' = toLowerCase q ->
  nextRecent q' (nextRecent q prev) = q' :: tail (nextRecent q prev)
  /\ nextRecent q (nextRecent q prev) = nextRecent q prev.
Proof.
  assert (forall q1, toLowerCase q1 = toLowerCase q ->
            nextRecent q1 (nextRecent q prev) = q1 :: tail (nextRecent q prev)) as Hagain.
  { intros q1 Hsame.
    pose proof (nextRecent_tail_differs q prev) as Hdiff.
    pose proof (nextRecent_tail_length q prev) as Hlen.
    rewrite (nextRecent_cons q prev) in *. simpl in *.
    rewrite nextRecent_cons.
    rewrite filter_cons_False by (intros Hne; by apply Hne).
    rewrite filter_all.
    - by rewrite take_ge.
    - apply Forall_forall. intros x Hx. rewrite Hsame. by apply Hdiff. }
  intros Hsame. split; [by apply Hagain|].
  rewrite (Hagain q eq_refl). by rewrite nextRecent_cons.
Qed.

(** X11. What the cap of 8 drops.  A query that is new up to case goes in
    front of the first 7 earlier entries, so nothing is dropped while the
    list has at most 7 entries and the oldest entry is dropped when it has 8.
    A query that is already in a list of at most 8 entries drops nothing but
    its own earlier spellings. *)
Theorem recent_cap (q : string) (prev : list string) :
  (Forall (fun x => toLowerCase x ≠ toLowerCase q) prev ->
     nextRecent q prev = q :: take 7 prev
     /\ (length prev <= 7 -> nextRecent q prev = q :: prev))
  /\ ((exists x, x ∈ prev /\ toLowerCase x = toLowerCase q) ->
      length prev <= 8 ->
      nextRecent q prev = q :: filter (fun x => toLowerCase x ≠ toLowerCase q) prev).
Proof.
  split.
  - intros Hnew. rewrite nextRecent_cons, filter_all by done.
    split; [done|]. intros Hlen. by rewrite take_ge.
  - intros (x & Hx & Hsame) Hlen. rewrite nextRecent_cons. f_equal.
    apply take_ge.
    pose proof (length_filter_lt (fun y => toLowerCase y ≠ toLowerCase q) prev x Hx)
      as Hlt.
    assert (¬ toLowerCase x ≠ toLowerCase q) as Hnot by (intros Hne; by apply Hne).
    specialize (Hlt Hnot). lia.
Qed.

(** *** The candidate row *)

(** X12. The children of a candidate row are built without throwing exactly
    when both coordinates are numbers: the row then shows them with two
    digits, and otherwise evaluating it throws a [TypeError].  A search
    accepts entries without numeric coordinates, so the row of such a
    candidate throws. *)
Theorem CityItem_needs_numbers (toFixed : Q -> nat -> string) (item : Place.t) :
  (CityItem toFixed item = inl TypeError
   <-> isNumber (Place.lat item) && isNumber (Place.lon item) = false)
  /\ (forall lat lon,
        Place.lat item = JNum lat -> Place.lon item = JNum lon ->
        CityItem toFixed item
        = inr (mkCityRow (Place.name item) (Place.country item)
                         (toFixed lat 2) (toFixed lon 2)))
  /\ (forall r,
        toCity r = inr item ->
        isNumber (js_get_opt r "latitude") && isNumber (js_get_opt r "longitude") = false ->
        CityItem toFixed item = inl TypeError).
Proof.
  assert (CityItem toFixed item = inl TypeError
          <-> isNumber (Place.lat item) && isNumber (Place.lon item) = false) as Hiff.
  { unfold CityItem. destruct (Place.lat item), (Place.lon item); simpl; by split. }
  split_and!; [done| |].
  - intros lat lon Hlat Hlon. unfold CityItem. by rewrite Hlat, Hlon.
  - intros r Hr Hcoords. apply Hiff. apply toCity_fields in Hr as (_ & _ & _ & -> & ->).
    done.
Qed.

(** *** The mode chips *)

(** X13. A mode chip fetches only when it changes the mode of a selected
    place.  Pressing the chip of the current mode changes nothing and sends
    nothing; pressing a chip while no place is selected only stores the mode
    and sends nothing. *)
Theorem mode_chip_without_fetch (sys : System) (value : DisplayMode) :
  (mode (ui sys) = value -> step (PressMode value) sys = sys)
  /\ (place (ui sys) = None ->
      step (PressMode value) sys = mkSystem (with_mode value (ui sys)) (inflight sys)).
Proof.
  destruct sys as [s fl]. cbn [step ui inflight]. unfold start. cbn [ui inflight].
  split.
  - intros Hm. assert (pressMode value s = (inr Finished, s)) as ->; [|done].
    unfold pressMode, mbind, M_bind, gets. simpl. rewrite Hm. by destruct value.
  - intros Hp. destruct (decide (mode s = value)) as [Hm|Hm].
    + assert (pressMode value s = (inr Finished, s)) as ->.
      { unfold pressMode, mbind, M_bind, gets. simpl. rewrite Hm. by destruct value. }
      f_equal. destruct s. simpl in *. by subst.
    + assert (pressMode value s = (inr Finished, with_mode value s)) as ->; [|done].
      unfold pressMode, mbind, M_bind, gets. simpl.
      destruct (mode s), value; try done;
        unfold modeEffect, mbind, M_bind, gets; simpl; by rewrite Hp.
Qed.

(** *** Answers that arrive late *)

Lemma press_city sys i p :
  loadingCity (ui sys) = false ->
  cities (ui sys) !! i = Some p ->
  step (PressCity i) sys
  = mkSystem (forecastPending p (ui sys))
             (inflight sys ++ [(forecastUrl p (mode (ui sys)), ForecastCont)])%list.
Proof.
  intros Hidle Hp. cbn [step]. rewrite Hidle, Hp. unfold start.
  by rewrite fetchWeather_prefix.
Qed.

Lemma settle_newest_forecast s l url data rows :
  forecastRows data = inr rows ->
  step (Settle (length l) (Resolved (mkResponse true (inr data))))
       (mkSystem s (l ++ [(url, ForecastCont)]))
  = mkSystem (with_loadingWx false (with_hours rows s)) l.
Proof.
  intros Hrows. cbn [step inflight ui]. rewrite list_lookup_middle by done.
  by rewrite (resume_forecast_ok _ _ _ Hrows), delete_middle, app_nil_r.
Qed.

(** X14. Requests are neither cancelled nor matched to the place they were
    sent for.  When a second candidate is pressed while the forecast of a
    first one is still in flight and the answer of the first request arrives
    after the answer of the second, the screen ends up with the second place
    selected and the rows of the first answer under it. *)
Theorem late_answer_overwrites (sys : System) (i j : nat) (p p' : Place.t)
    (first second : JSValue) (rows rows' : list Hour.t) :
  loadingCity (ui sys) = false ->
  cities (ui sys) !! i = Some p ->
  cities (ui sys) !! j = Some p' ->
  forecastRows first = inr rows ->
  forecastRows second = inr rows' ->
  let n := length (inflight sys) in
  let final := run [PressCity i; PressCity j;
                    Settle (S n) (Resolved (mkResponse true (inr second)));
                    Settle n (Resolved (mkResponse true (inr first)))] sys in
  place (ui final) = Some p'
  /\ hours (ui final) = rows
  /\ loadingWx (ui final) = false
  /\ error (ui final) = ""
  /\ inflight final = inflight sys.
Proof.
  intros Hidle Hp Hp' Hrows Hrows' n final. subst final n. cbn [run].
  rewrite (press_city _ _ _ Hidle Hp).
  rewrite (press_city _ j p') by done. cbn [ui inflight].
  set (l := inflight sys).
  set (u := forecastUrl p (mode (ui sys))).
  assert (S (length l) = length (l ++ [(u, ForecastCont)])%list) as ->
    by (rewrite length_app; simpl; lia).
  rewrite (settle_newest_forecast _ _ _ _ _ Hrows').
  by rewrite (settle_newest_forecast _ _ _ _ _ Hrows).
Qed.

(** *** The classifier, code by code *)

Lemma codeToEmoji_unnamed (z : Z) :
  z ∉ namedCodes -> codeToEmoji (JNum (inject_Z z)) = "🌀".
Proof.
  unfold codeToEmoji, namedCodes. rewrite !includes_integer.
  cbn [existsb]. rewrite !not_elem_of_cons.
  repeat match goal with
         | |- context [(z =? ?n)%Z] => destruct (Z.eqb_spec z n) as [->|?]
         end; simpl; intuition (try discriminate; try lia).
Qed.

(** X15. The lists of the classifier do not overlap, so each icon stands for
    exactly the codes of its own test: clear for 0; partly cloudy for 1, 2;
    overcast for 3; fog for 45, 48; drizzle for 51, 53, 55, 56, 57; rain for
    61, 63, 65, 66, 67, 80, 81, 82; snow for 71, 73, 75, 77, 85, 86;
    thunderstorm for 95, 96, 99. *)
Theorem codeToEmoji_table (z : Z) :
  let icon := codeToEmoji (JNum (inject_Z z)) in
  (icon = "☀️" <-> z = 0%Z)
  /\ (icon = "🌤️" <-> z ∈ [1; 2]%Z)
  /\ (icon = "☁️" <-> z = 3%Z)
  /\ (icon = "🌫️" <-> z ∈ [45; 48]%Z)
  /\ (icon = "🌦️" <-> z ∈ [51; 53; 55; 56; 57]%Z)
  /\ (icon = "🌧️" <-> z ∈ [61; 63; 65; 66; 67; 80; 81; 82]%Z)
  /\ (icon = "❄️" <-> z ∈ [71; 73; 75; 77; 85; 86]%Z)
  /\ (icon = "⛈️" <-> z ∈ [95; 96; 99]%Z).
Proof.
  intros icon. subst icon.
  destruct (decide (z ∈ namedCodes)) as [Hin|Hout].
  - unfold namedCodes in Hin.
    repeat (apply elem_of_cons in Hin; destruct Hin as [->|Hin]);
      [..|by apply elem_of_nil in Hin];
      by apply (bool_decide_unpack _); vm_compute.
  - rewrite (codeToEmoji_unnamed z Hout).
    unfold namedCodes in Hout. rewrite !not_elem_of_cons in Hout.
    rewrite !elem_of_cons, !elem_of_nil.
    split_and!; (split; [discriminate|]); intuition lia.
Qed.

(** X16. Anything that is not a number equal to one of the 28 named codes
    gets the fallback icon: a missing code ([undefined]), [null], a code sent
    as a string, and a number that is not an integer. *)
Theorem codeToEmoji_fallback (v : JSValue) :
  codeToEmoji v ≠ "🌀" ->
  exists q z, v = JNum q /\ q == inject_Z z /\ z ∈ namedCodes.
Proof.
  destruct v as [| |b|q|t|items|fields]; try done. intros Hicon.
  destruct (existsb (fun z => Qeq_bool q (inject_Z z)) namedCodes) eqn:Hnamed.
  - apply existsb_exists in Hnamed as (z & Hz%list_elem_of_In & Hq).
    exists q, z. split_and!; [done| |done]. by apply Qeq_bool_iff.
  - exfalso. apply Hicon. unfold codeToEmoji.
    assert (forall lits, lits ⊆ namedCodes -> includes lits (JNum q) = false) as Hfalse.
    { intros lits Hsub. apply not_true_is_false.
      intros (z & Hz%list_elem_of_In & Hq)%existsb_exists.
      apply not_true_iff_false in Hnamed. apply Hnamed, existsb_exists.
      exists z. split; [apply list_elem_of_In; by apply Hsub|done]. }
    rewrite !Hfalse; [done|..]; by apply (bool_decide_unpack _); vm_compute.
Qed.

(** *** The candidate list over a run *)

Lemma cities_step ev sys :
  cities (ui (step ev sys)) = cities (ui sys)
  \/ cities (ui (step ev sys)) = []
  \/ exists n data,
       ev = Settle n (Resolved (mkResponse true (inr data)))
       /\ geocodingCities data = inr (cities (ui (step ev sys))).
Proof.
  destruct ev as [t| |i|value|i|n out]; cbn [step].
  - left. by rewrite ui_start.
  - rewrite ui_start, submit_handler.
    destruct (searchCity_state (query (ui sys)) None (ui sys)) as [->|[->| ->]]; auto.
  - destruct (recent (ui sys) !! i) as [item|]; [|by left].
    rewrite ui_start, recent_handler.
    destruct (searchCity_state (query (ui sys)) (Some item) (with_query item (ui sys)))
      as [->|[->| ->]]; auto.
  - left. rewrite ui_start.
    by destruct (pressMode_state value (ui sys)) as [->|[->|[p ->]]].
  - destruct (loadingCity (ui sys)); [by left|].
    destruct (cities (ui sys) !! i) as [item|]; [|by left].
    left. by rewrite ui_start, fetchWeather_prefix.
  - destruct (inflight sys !! n) as [[url k]|]; [|by left]. simpl.
    destruct (resume_state k out (ui sys))
      as [(q & data & found & _ & -> & Hfound & ->)|[(q & _ & ->)
         |[(data & rows & _ & _ & _ & ->)|[_ ->]]]];
      simpl; eauto 10.
Qed.

(** X17. Candidates of different answers are never mixed, and a failed
    search never brings old candidates back: along any run the candidate
    list is the one the run started with, or empty, or the candidates of all
    entries of one answer delivered during the run, in the order of that
    answer. *)
Theorem candidates_of_one_answer (evs : list Event) (sys : System) :
  cities (ui (run evs sys)) = cities (ui sys)
  \/ cities (ui (run evs sys)) = []
  \/ exists n data results,
       Settle n (Resolved (mkResponse true (inr data))) ∈ evs
       /\ js_or (js_get_opt data "results") (JArr []) = JArr results
       /\ cities (ui (run evs sys)) = cityOf <$> results.
Proof.
  revert sys. induction evs as [|ev rest IH]; intros sys; simpl; [by left|].
  destruct (IH (step ev sys)) as [Hsame|[Hnil|(n & data & results & Hin & Hres & Hc)]].
  - rewrite Hsame.
    destruct (cities_step ev sys) as [?|[?|(n & data & -> & Hfound)]]; auto.
    apply geocodingCities_iff in Hfound as (_ & results & Hres & _ & Hc).
    right; right. exists n, data, results. split_and!; [apply list_elem_of_here|done..].
  - auto.
  - right; right. exists n, data, results.
    split_and!; [by apply list_elem_of_further|done..].
Qed.

(** *** Requests sent and settled *)

(** X18. An event sends at most one request.  An event that sends one
    clears the error message, whichever action left it, and turns a spinner
    on; an answer that is delivered takes exactly its own request out of
    those in flight. *)
Theorem one_request_per_event (ev : Event) (sys : System) :
  length (inflight (step ev sys)) <= S (length (inflight sys))
  /\ (length (inflight (step ev sys)) = S (length (inflight sys)) ->
      error (ui (step ev sys)) = ""
      /\ (loadingCity (ui (step ev sys)) = true \/ loadingWx (ui (step ev sys)) = true))
  /\ (forall n out request,
        ev = Settle n out -> inflight sys !! n = Some request ->
        inflight (step ev sys) = delete n (inflight sys)
        /\ S (length (inflight (step ev sys))) = length (inflight sys)).
Proof.
  split_and!.
  - pose proof (step_transition ev sys) as Hab.
    transition_cases Hab; cbn [ui inflight];
      rewrite ?length_app; simpl; try lia;
      rewrite length_delete by eauto; lia.
  - pose proof (step_transition ev sys) as Hab.
    transition_cases Hab; cbn [ui inflight]; simpl; auto; try lia;
      rewrite length_delete by eauto; lia.
  - intros n out request -> Hn. cbn [step]. rewrite Hn. destruct request as [url k].
    cbn [inflight]. split; [done|]. rewrite length_delete by eauto.
    apply lookup_lt_Some in Hn. lia.
Qed.

End Further.

(** ** The model on concrete inputs *)

#[local] Existing Instance Sample.builtins.

Example search_new_york :
  (searchCity " New York " None initial).1
  = inr (Awaiting "https://geocoding-api.open-meteo.com/v1/search?name=New%20York&count=5&language=en&format=json"
                  (SearchCont "New York")).
Proof. reflexivity. Qed.

Example forecast_request_basic :
  (fetchWeather (Some hamilton) initial).1
  = inr (Awaiting "https://api.open-meteo.com/v1/forecast?latitude=43&longitude=-80&hourly=temperature_2m,weathercode&timezone=auto"
                  ForecastCont).
Proof. reflexivity. Qed.

Example forecast_thirty_hours :
  length (hours (complete (fetchWeather (Some hamilton)) (answer thirtyHours) initial).2) = 24.
Proof. reflexivity. Qed.

Example forecast_rows_rendered :
  map (HourRow precip)
      (hours (complete (fetchWeather (Some hamilton)) (answer threeHours) initial).2)
  = [mkRow "00:00" "☀️" (JNum 4) (Some (JNum 0));
     mkRow "01:00" "🌧️" (JNum 3) (Some (JNum 0));
     mkRow "02:00" "❄️" (JNum 0) (Some (JNum 0))].
Proof. reflexivity. Qed.

Example recent_moves_to_front :
  recent (complete (searchCity "" (Some "TORONTO")) (answer (JObj [])) initial).2
  = ["TORONTO"; "Hamilton"; "New York"].
Proof. reflexivity. Qed.

(** A body that is [null] is a failure: reading [data.results] throws. *)
Example search_null_body :
  error (complete (searchCity "" (Some "Toronto")) (answer JNull) initial).2 = searchFailed.
Proof. reflexivity. Qed.

(** An empty [text] argument falls back to the query cell. *)
Example search_empty_argument :
  (searchCity "paris" (Some "") initial).1
  = inr (Awaiting "https://geocoding-api.open-meteo.com/v1/search?name=paris&count=5&language=en&format=json"
                  (SearchCont "paris")).
Proof. reflexivity. Qed.

(** A time series that is not an array is a failure. *)
Example forecast_time_not_array :
  let data := JObj [("hourly", JObj [("time", JStr "2025-03-01T00:00")])] in
  error (complete (fetchWeather (Some hamilton)) (answer data) initial).2 = forecastFailed.
Proof. reflexivity. Qed.

(** A session: search, pick the first candidate, switch the mode, and let
    the three requests settle in turn. *)
Example session :
  let found := JObj [("results",
                      JArr [JObj [("id", JNum 5969782); ("name", JStr "Hamilton");
                                  ("country", JStr "Canada"); ("latitude", JNum 43);
                                  ("longitude", JNum (-80))]])] in
  let final := run [ChangeText "hamilton "; Submit; Settle 0 (answer found); PressCity 0;
                    Settle 0 (answer threeHours); PressMode precip;
                    Settle 0 (answer thirtyHours)]
                   (mkSystem initial []) in
  inflight final = []
  /\ recent (ui final) = ["hamilton"; "Toronto"; "New York"]
  /\ place (ui final) = Some hamilton
  /\ mode (ui final) = precip
  /\ length (hours (ui final)) = 24
  /\ error (ui final) = "".
Proof. by vm_compute. Qed.

(** Requests are not cancelled: with two forecast requests in flight, the
    answer that arrives last is the one shown, whichever request it is for. *)
Example late_answer_is_shown :
  let final := run [PressMode precip; PressMode basic;
                    Settle 1 (answer threeHours); Settle 0 (answer thirtyHours)]
                   selected in
  mode (ui final) = basic
  /\ forecastRows thirtyHours = inr (hours (ui final)).
Proof. by vm_compute. Qed.

Lemma fetchWeather_success_rows_witness :
  let done := complete (fetchWeather (Some hamilton)) (answer threeHours) initial in
  error done.2 = ""
  /\ hours done.2
     = [Hour.mk (JStr "2025-03-01T00:00") (JStr "2025-03-01T00:00")
                (JNum (7 # 2)) (JNum 0) JUndefined;
        Hour.mk (JStr "2025-03-01T01:00") (JStr "2025-03-01T01:00")
                (JNum 3) (JNum 61) JUndefined;
        Hour.mk (JStr "2025-03-01T02:00") (JStr "2025-03-01T02:00")
                (JNum (-1 # 2)) (JNum 71) JUndefined]
  /\ exists data ts,
       answer threeHours = answer data
       /\ hourlySeries data "time" = JArr ts
       /\ hours done.2 = imap (zipped data) (take 24 ts)
       /\ length (hours done.2) <= 24.
Proof.
  destruct (fetchWeather_success_rows hamilton initial) as [Hsuccess Hfields].
  split; [reflexivity|]. split.
  - destruct (Hfields
                [("hourly",
                  JObj [("time", JArr [JStr "2025-03-01T00:00"; JStr "2025-03-01T01:00";
                                       JStr "2025-03-01T02:00"]);
                        ("temperature_2m", JArr [JNum (7 # 2); JNum 3; JNum (-1 # 2)]);
                        ("weathercode", JArr [JNum 0; JNum 61; JNum 71])])]
                _ _ _ _ [] eq_refl eq_refl eq_refl eq_refl (or_intror (conj eq_refl eq_refl)))
      as (Hdone & _).
    exact (f_equal (fun r => hours r.2) Hdone).
  - destruct (Hsuccess (answer threeHours) eq_refl)
      as (data & ts & Hout & Hts & _ & Hrows & _ & Hlen & _).
    exists data, ts. repeat split; assumption.
Defined.

Lemma codeToEmoji_total_witness :
  codeToEmoji (JNum (inject_Z 63)) ∈ emojis
  /\ codeToEmoji (JNum (126 # 2)) = codeToEmoji (JNum 63).
Proof.
  destruct codeToEmoji_total as (Hint & _ & _ & _ & _ & _ & Hsame).
  split; [apply (Hint 63%Z)|apply Hsame; reflexivity].
Defined.

Lemma recent_list_update_witness :
  let done := complete (searchCity " toronto " None) (answer (JObj [])) eightRecent in
  submitted " toronto " None <> ""
  /\ error done.2 = ""
  /\ recent done.2
     = ["toronto"; "Paris"; "Rome"; "Oslo"; "Lima"; "Cairo"; "Quito"; "Seoul"]
  /\ head (recent done.2) = Some "toronto"
  /\ length (recent done.2) <= 8
  /\ distinctIgnoringCase (recent initial)
  /\ distinctIgnoringCase (recent done.2)
  /\ (forall evs, distinctIgnoringCase (recent (ui (run evs (mkSystem initial []))))
                  /\ length (recent (ui (run evs (mkSystem initial [])))) <= 8).
Proof.
  assert (submitted " toronto " None <> "") as Hq by discriminate.
  assert (distinctIgnoringCase (recent initial)) as Hinitial
    by (by apply (bool_decide_unpack _); vm_compute).
  assert (distinctIgnoringCase (recent eightRecent)) as Height
    by (by apply (bool_decide_unpack _); vm_compute).
  split; [exact Hq|]. split; [reflexivity|].
  destruct (recent_list_update " toronto " None eightRecent (answer (JObj [])) Hq eq_refl)
    as (_ & Hhead & Hlen & _ & _ & _ & Hdistinct & Hrun & Hnext & _).
  split; [etrans; [exact Hnext|reflexivity]|].
  split; [exact Hhead|]. split; [exact Hlen|].
  split; [exact Hinitial|]. split; [exact (Hdistinct Height)|].
  intros evs. apply Hrun; [exact Hinitial|]. simpl. lia.
Defined.


Lemma search_candidates_witness :
  let done := complete (searchCity " Springfield " None) (answer sixResults) initial in
  submitted " Springfield " None <> ""
  /\ error done.2 = ""
  /\ exists results,
       js_or (js_get_opt sixResults "results") (JArr []) = JArr results
       /\ length (cities done.2) = length results.
Proof.
  assert (submitted " Springfield " None <> "") as Hq by discriminate.
  split; [exact Hq|]. split; [reflexivity|].
  destruct (search_candidates " Springfield " None initial (answer sixResults) Hq eq_refl)
    as (name & data & results & _ & _ & [= <-] & Hres & Hlen & _).
  exists results. split; assumption.
Defined.

(** C5 as the spec states it fails: an answer with six entries, the last one
    without coordinates, ends the search with no error, six candidates, and a
    candidate whose latitude is undefined. *)
Lemma search_six_candidates :
  let done := complete (searchCity " Springfield " None) (answer sixResults) initial in
  submitted " Springfield " None = "Springfield"
  /\ done.1 = inr tt
  /\ error done.2 = ""
  /\ length (cities done.2) = 6
  /\ Place.lat <$> last (cities done.2) = Some JUndefined
  /\ ~ (length (cities done.2) <= 5
        /\ Forall (fun c => isNumber (Place.lat c) /\ isNumber (Place.lon c))
                  (cities done.2)).
Proof.
  split_and!; try reflexivity.
  intros [Hlen _]. vm_compute in Hlen. lia.
Qed.

Lemma failure_sets_one_message_witness :
  let out := Resolved (mkResponse false (inr JNull)) in
  thrown geocodingCities out
  /\ thrown forecastRows out
  /\ submitted "Hamilton" None <> ""
  /\ (complete (searchCity "Hamilton" None) out initial).1 = inr tt
  /\ error (complete (searchCity "Hamilton" None) out initial).2 = searchFailed
  /\ cities (complete (searchCity "Hamilton" None) out initial).2 = []
  /\ error (complete (fetchWeather (Some hamilton)) out initial).2 = forecastFailed
  /\ hours (complete (fetchWeather (Some hamilton)) out initial).2 = []
  /\ cities (resume (SearchCont "Hamilton") out (with_cities [hamilton] initial)).2
     = [hamilton].
Proof.
  intros out.
  assert (thrown geocodingCities out) as Hsearch by done.
  assert (thrown forecastRows out) as Hforecast by done.
  assert (submitted "Hamilton" None <> "") as Hq by discriminate.
  split; [exact Hsearch|]. split; [exact Hforecast|]. split; [exact Hq|].
  destruct (failure_sets_one_message initial out) as (Hs & _ & Hf & _).
  destruct (failure_sets_one_message (with_cities [hamilton] initial) out)
    as (_ & _ & _ & _ & _ & _ & _ & Hresume & _).
  rewrite (Hs "Hamilton" None Hq Hsearch), (Hf hamilton Hforecast).
  rewrite (Hresume "Hamilton" Hsearch). repeat split.
Defined.

(** C6 as the spec states it fails when two searches overlap: the second is
    answered with a candidate, then the first fails; the message is set, yet
    the candidate list is not empty. *)
Lemma failed_search_keeps_candidates :
  let final := run [ChangeText "Hamilton"; Submit; Submit;
                    Settle 1 (answer hamiltonFound); Settle 0 (Rejected NetworkError)]
                   (mkSystem initial []) in
  inflight final = []
  /\ error (ui final) = searchFailed
  /\ cities (ui final) = [hamilton]
  /\ ~ (error (ui final) = searchFailed /\ cities (ui final) = []).
Proof.
  split_and!; try reflexivity. intros [_ Hempty]. vm_compute in Hempty. discriminate.
Qed.

Lemma searchCity_empty_is_noop_witness :
  submitted "   " None = ""
  /\ searchCity "   " None initial = (inr Finished, initial).
Proof.
  assert (submitted "   " None = "") as Hq by reflexivity.
  split; [exact Hq|].
  apply (searchCity_empty_is_noop "   " None initial Hq).
Defined.


Lemma fetchWeather_place_before_response_witness :
  let out := Rejected NetworkError in
  thrown forecastRows out
  /\ place (fetchWeather (Some hamilton) initial).2 = Some hamilton
  /\ place (complete (fetchWeather (Some hamilton)) out initial).2 = Some hamilton
  /\ hours (complete (fetchWeather (Some hamilton)) out initial).2 = []
  /\ error (complete (fetchWeather (Some hamilton)) out initial).2 = forecastFailed.
Proof.
  destruct (fetchWeather_place_before_response hamilton initial)
    as ((url & pending & Hprefix & Hplace) & _ & Hfailed & _).
  split; [exact I|]. split; [by rewrite Hprefix|].
  apply (Hfailed (Rejected NetworkError) I).
Defined.

(** C9 as the spec states it fails when two fetches overlap: Toronto is
    pressed, then Hamilton; the answer for Hamilton arrives, then the fetch
    for Toronto fails.  The message is set, yet the selected place is not
    Toronto and the hour sequence is not empty. *)
Lemma failed_fetch_keeps_other_place :
  let final := run [PressCity 0; PressCity 1; Settle 1 (answer threeHours);
                    Settle 0 (Rejected NetworkError)] twoCandidates in
  cities (ui twoCandidates) !! 0 = Some toronto
  /\ inflight final = []
  /\ error (ui final) = forecastFailed
  /\ place (ui final) = Some hamilton
  /\ length (hours (ui final)) = 3
  /\ ~ (place (ui final) = Some toronto /\ hours (ui final) = []).
Proof.
  split_and!; try reflexivity. intros [Hplace _]. vm_compute in Hplace. discriminate.
Qed.

Lemma search_without_results_witness :
  let body := [("generationtime_ms", JNum 1)] in
  let done := complete (searchCity "Atlantis" None) (answer (JObj body)) initial in
  submitted "Atlantis" None <> ""
  /\ assoc "results" body = JUndefined
  /\ cities done.2 = []
  /\ error done.2 = ""
  /\ recent done.2 = ["Atlantis"; "Hamilton"; "Toronto"; "New York"].
Proof.
  assert (submitted "Atlantis" None <> "") as Hq by discriminate.
  split; [exact Hq|]. split; [reflexivity|].
  destruct (search_without_results "Atlantis" None initial
              [("generationtime_ms", JNum 1)] _ Hq eq_refl eq_refl)
    as (_ & Hcities & Herror & _ & Hrecent & _).
  split; [exact Hcities|]. split; [exact Herror|].
  etrans; [exact Hrecent|reflexivity].
Defined.

(** ** The further properties on concrete inputs *)

Example candidate_row_rendered :
  CityItem sampleToFixed (Place.mk "1" (JStr "Hamilton") (JStr "Canada")
                                   (JNum (173 # 4)) (JNum (-1597 # 20)))
  = inr (mkCityRow (JStr "Hamilton") (JStr "Canada") "43.25" "-79.85").
Proof. reflexivity. Qed.

Lemma error_is_one_of_two_witness :
  let evs := [ChangeText "Hamilton"; Submit; Settle 0 (Rejected NetworkError)] in
  error (ui (mkSystem initial [])) ∈ [""; searchFailed; forecastFailed]
  /\ error (ui (run evs (mkSystem initial []))) ∈ [""; searchFailed; forecastFailed]
  /\ error (ui (run evs (mkSystem initial []))) = searchFailed.
Proof.
  assert (error (ui (mkSystem initial [])) ∈ [""; searchFailed; forecastFailed])
    as Hinitial by apply list_elem_of_here.
  split; [exact Hinitial|]. split; [|reflexivity].
  apply (error_is_one_of_two _ (mkSystem initial []) Hinitial).
Defined.

Lemma hours_at_most_24_witness :
  let evs := [PressMode precip; Settle 0 (answer thirtyHours)] in
  length (hours (ui selected)) <= 24
  /\ length (hours (ui (run evs selected))) <= 24
  /\ length (hours (ui (run evs selected))) = 24.
Proof.
  assert (length (hours (ui selected)) <= 24) as Hselected by (simpl; lia).
  split; [exact Hselected|]. split; [|reflexivity].
  apply (hours_at_most_24 [PressMode precip; Settle 0 (answer thirtyHours)]
                          selected Hselected).
Defined.

Lemma search_succeeds_iff_witness :
  submitted "Hamilton" None = "Hamilton"
  /\ "Hamilton" <> ""
  /\ error (complete (searchCity "Hamilton" None) (answer oddId) initial).2 <> ""
  /\ error (complete (searchCity "Hamilton" None) (answer hamiltonFound) initial).2 = ""
  /\ cities (resume (SearchCont "Hamilton") (answer hamiltonFound) initial).2 = [hamilton].
Proof.
  assert (submitted "Hamilton" None = "Hamilton") as Hq by reflexivity.
  assert ("Hamilton" <> "") as Hne by discriminate.
  split; [exact Hq|]. split; [exact Hne|]. split_and!.
  - destruct (search_succeeds_iff "Hamilton" (answer oddId))
      as (_ & _ & _ & Hiff).
    intros Herror. apply (Hiff "Hamilton" None initial Hq Hne) in Herror
      as [_ (data & results & [= <-] & _ & [= <-] & Hall)].
    apply Forall_cons in Hall as [[_ Hid] _]. discriminate Hid.
  - destruct (search_succeeds_iff "Hamilton" (answer hamiltonFound))
      as (_ & _ & _ & Hiff).
    apply (Hiff "Hamilton" None initial Hq Hne). split; [by eexists|].
    eexists hamiltonFound, _. split_and!; try reflexivity.
    apply Forall_cons. split; [by split|apply Forall_nil_2].
  - destruct (search_succeeds_iff "Hamilton" (answer hamiltonFound))
      as (_ & Hstore & _).
    rewrite (Hstore initial hamiltonFound _ eq_refl eq_refl eq_refl); [reflexivity|].
    apply Forall_cons. split; [by split|apply Forall_nil_2].
Defined.

Lemma forecast_succeeds_iff_witness :
  error (complete (fetchWeather (Some hamilton)) (answer JNull) initial).2 = ""
  /\ hours (complete (fetchWeather (Some hamilton)) (answer JNull) initial).2 = []
  /\ (fetchWeather_body (answer (JObj [("hourly", JObj [("time", JStr "now")])]))
                        initial).1 <> inr tt.
Proof.
  destruct (forecast_succeeds_iff hamilton initial (answer JNull))
    as (_ & _ & _ & _ & Hmissing).
  pose proof (Hmissing JNull eq_refl) as Hnull.
  split; [exact (f_equal (fun r => error r.2) Hnull)|].
  split; [exact (f_equal (fun r => hours r.2) Hnull)|].
  destruct (forecast_succeeds_iff hamilton initial
              (answer (JObj [("hourly", JObj [("time", JStr "now")])])))
    as (Hbody & _).
  intros Hok. apply Hbody in Hok as (data & [= <-] & [Hfalsy|[ts Harr]]); discriminate.
Defined.

Lemma recent_same_query_again_witness :
  toLowerCase "TORONTO" = toLowerCase "Toronto"
  /\ nextRecent "TORONTO" (nextRecent "Toronto" (recent initial))
     = ["TORONTO"; "Hamilton"; "New York"].
Proof.
  assert (toLowerCase "TORONTO" = toLowerCase "Toronto") as Hsame by reflexivity.
  split; [exact Hsame|].
  destruct (recent_same_query_again "Toronto" "TORONTO" (recent initial) Hsame)
    as [Hagain _].
  etrans; [exact Hagain|reflexivity].
Defined.

Lemma late_answer_overwrites_witness :
  let final := run [PressCity 0; PressCity 1; Settle 1 (answer thirtyHours);
                    Settle 0 (answer threeHours)] twoCandidates in
  loadingCity (ui twoCandidates) = false
  /\ cities (ui twoCandidates) !! 1 = Some hamilton
  /\ place (ui final) = Some hamilton
  /\ forecastRows threeHours = inr (hours (ui final)).
Proof.
  intros final.
  destruct (forecastRows threeHours) as [e|rows] eqn:Hthree; [discriminate Hthree|].
  destruct (forecastRows thirtyHours) as [e|rows'] eqn:Hthirty; [discriminate Hthirty|].
  destruct (late_answer_overwrites twoCandidates 0 1 _ hamilton threeHours thirtyHours
              rows rows' eq_refl eq_refl eq_refl Hthree Hthirty)
    as (Hplace & Hhours & _).
  split; [reflexivity|]. split; [reflexivity|]. split; [exact Hplace|].
  f_equal. symmetry. exact Hhours.
Defined.

Lemma codeToEmoji_fallback_witness :
  codeToEmoji (JNum (190 # 2)) ≠ "🌀"
  /\ exists q z, JNum (190 # 2) = JNum q /\ q == inject_Z z /\ z ∈ namedCodes.
Proof.
  assert (codeToEmoji (JNum (190 # 2)) ≠ "🌀") as Hicon by discriminate.
  split; [exact Hicon|]. apply (codeToEmoji_fallback _ Hicon).
Defined.
